(** * watsonx-go, package [models]: the retry engine and the error decoder

    A shallow embedding of [pkg/models/errors.go] and [pkg/models/retry.go].

    Go values are modelled as follows.
    - [int], [time.Duration] (an [int64] count of nanoseconds): [Z];
      [uint]: [N], with the 64-bit wrap-around of [n+1] written out.
    - [[]byte]: [list byte]; [string]: [string].
    - a nilable pointer or interface ([*http.Response], [error]): [option].
    - a closure that reads or writes variables outside [Retry] (the
      operation, [onRetry], [retryIf], the context, the timer): a function
      on an explicit world [W], threaded through [Retry] by a small monad
      that also records what [Retry] called, in order.
    - the Go runtime and standard library ([select], [rand.Int63n],
      [time.After], [json.Unmarshal]): section variables, so that every
      theorem holds whatever they compute. *)

From Stdlib Require Import ZArith NArith List String Ascii Bool Lia.
From Stdlib Require Import Strings.Byte.
From Stdlib Require DecimalString DecimalZ DecimalPos.
Import ListNotations.

Local Open Scope string_scope.
Local Open Scope list_scope.
Local Open Scope Z_scope.

Set Implicit Arguments.
Set Warnings "-register-all".

(* ================================================================= *)
(** ** errors.go: the data model *)

(** [ErrorDetail]: individual error information. *)
Record ErrorDetail := mkErrorDetail {
  Code     : string;
  Message  : string;
  MoreInfo : string
}.

(** [WatsonxError]: a structured WatsonX API error.  A nil slice and an
    empty slice are both [[]]: the code only takes [len] of it. *)
Record WatsonxError := mkWatsonxError {
  StatusCode : Z;
  Errors     : list ErrorDetail;
  Trace      : string
}.

(** [WatsonxErrorResponse]: the error envelope of the wire format. *)
Record WatsonxErrorResponse := mkWatsonxErrorResponse {
  envelope_Errors : list ErrorDetail;
  envelope_Trace  : string
}.

(** A non-nil value of Go's [error] interface: a [*WatsonxError], or any
    other error (transport, body read, context), named by its message. *)
Inductive error_value :=
| WatsonxErr (e : WatsonxError)
| OtherErr (msg : string).

(** Go's [error]: [None] is [nil]. *)
Definition error := option error_value.

(** An [io.ReadCloser]: the bytes the stream still yields, and the error
    that ends it ([None] when it ends with EOF). *)
Record ReadCloser := mkReadCloser {
  pending  : list byte;
  read_err : error
}.

(** [io.ReadAll]: everything up to EOF or the first error, that error
    ([nil] at EOF), and the stream as it is left: drained. *)
Definition io_ReadAll (r : ReadCloser) : list byte * error * ReadCloser :=
  (pending r, read_err r, {| pending := []; read_err := read_err r |}).

(** [io.NopCloser(bytes.NewBuffer(b))]: a fresh in-memory stream over [b]. *)
Definition NopCloser_NewBuffer (b : list byte) : ReadCloser :=
  {| pending := b; read_err := None |}.

(** The part of [http.Response] the package touches.  [Body] is never nil
    (net/http guarantees it for a client's response). *)
Record Response := mkResponse {
  resp_StatusCode : Z;
  Body            : ReadCloser
}.

Definition StatusOK : Z := 200.

(** [&WatsonxError{StatusCode: sc}]. *)
Definition status_only (sc : Z) : WatsonxError :=
  {| StatusCode := sc; Errors := []; Trace := "" |}.

Section Decode.

(** [json.Unmarshal(body, &apiErr)] on a zero [WatsonxErrorResponse]:
    [Some] of the filled envelope when it returns a nil error, [None]
    when it returns an error. *)
Variable json_Unmarshal : list byte -> option WatsonxErrorResponse.

(** [DecodeWatsonxError].  [resp] is a pointer, and the function assigns
    [resp.Body]: the second component is the response object as the call
    leaves it. *)
Definition DecodeWatsonxError (resp : option Response)
  : error * option Response :=
  match resp with
  | None => (Some (WatsonxErr (status_only 0)), None)
  | Some r =>
    let '(body, err, drained) := io_ReadAll (Body r) in
    match err with
    | Some _ =>
      (Some (WatsonxErr (status_only (resp_StatusCode r))),
       Some {| resp_StatusCode := resp_StatusCode r; Body := drained |})
    | None =>
      (* Restore body so it can be read again *)
      let r' := {| resp_StatusCode := resp_StatusCode r;
                   Body := NopCloser_NewBuffer body |} in
      let wxErr := status_only (resp_StatusCode r) in
      if (List.length body =? 0)%nat then (Some (WatsonxErr wxErr), Some r')
      else
        match json_Unmarshal body with
        | None => (Some (WatsonxErr wxErr), Some r')
        | Some apiErr =>
          (Some (WatsonxErr {| StatusCode := StatusCode wxErr;
                               Errors := envelope_Errors apiErr;
                               Trace := envelope_Trace apiErr |}),
           Some r')
        end
    end
  end.

End Decode.

(* ================================================================= *)
(** ** retry.go: machine integers and the calls [Retry] makes *)

(** Conversion to [uint] (64 bits): the value modulo [2^64]. *)
Definition uint (n : N) : N := (n mod 2 ^ 64)%N.

(** Conversion to [int64]: two's-complement wrap-around. *)
Definition int64 (z : Z) : Z := (z + 2 ^ 63) mod 2 ^ 64 - 2 ^ 63.

(** [time.Duration] is an [int64] count of nanoseconds. *)
Definition Duration := Z.
Definition Second : Duration := 1000000000.

(** What [Retry] does to the outside, in the order it does it. *)
Inductive Event :=
| Called (resp : option Response) (err : error)
    (* [retryableFunc()] was invoked and returned [(resp, err)] *)
| AskedRetryIf (err : error) (answer : bool)
    (* [opts.retryIf(err)] returned [answer] *)
| OnRetryCalled (attempt : N) (err : error)
    (* [opts.onRetry(attempt, err)] *)
| Waited (d : Duration) (timer_fired : bool).
    (* the [select] on [opts.timer.After(d)] and [opts.context.Done()]:
       [true] when the timer case was taken, [false] when the context's *)

Definition is_Called (e : Event) : bool :=
  match e with Called _ _ => true | _ => false end.
Definition is_OnRetryCalled (e : Event) : bool :=
  match e with OnRetryCalled _ _ => true | _ => false end.
Definition is_Waited (e : Event) : bool :=
  match e with Waited _ _ => true | _ => false end.
Definition is_AskedRetryIf (e : Event) : bool :=
  match e with AskedRetryIf _ _ => true | _ => false end.

(** How many times the operation was invoked. *)
Definition count_calls (tr : list Event) : nat :=
  List.length (filter is_Called tr).
(** How many times [onRetry] was invoked. *)
Definition count_onRetry (tr : list Event) : nat :=
  List.length (filter is_OnRetryCalled tr).
(** How many backoff waits were entered. *)
Definition count_waits (tr : list Event) : nat :=
  List.length (filter is_Waited tr).

(** The attempt numbers [onRetry] received, in order. *)
Fixpoint onRetry_attempts (tr : list Event) : list N :=
  match tr with
  | [] => []
  | OnRetryCalled a _ :: tr' => a :: onRetry_attempts tr'
  | _ :: tr' => onRetry_attempts tr'
  end.

(** What the most recent invocation of the operation returned. *)
Fixpoint last_call (tr : list Event) : option (option Response * error) :=
  match tr with
  | [] => None
  | Called resp err :: tr' =>
    match last_call tr' with
    | Some o => Some o
    | None => Some (resp, err)
    end
  | _ :: tr' => last_call tr'
  end.

(** The three components of a run: what was returned, the world it left,
    and the record of calls. *)
Definition returned {A W : Type} (x : A * W * list Event) : A := fst (fst x).
Definition world_after {A W : Type} (x : A * W * list Event) : W := snd (fst x).
Definition trace {A W : Type} (x : A * W * list Event) : list Event := snd x.

(** The success test of an attempt:
    [err == nil && resp != nil && resp.StatusCode == http.StatusOK]. *)
Definition is_success (resp : option Response) (err : error) : bool :=
  match err, resp with
  | None, Some r => resp_StatusCode r =? StatusOK
  | _, _ => false
  end.

Section Engine.

(** The world outside [Retry]: the server, the variables the caller's
    closures capture, the clock, the random source. *)
Variable W : Type.

(** Channels, and the runtime's [select] over two receive cases: [true]
    when the first case is taken, [false] when the second is. *)
Variable Chan : Type.
Variable select2 : Chan -> Chan -> W -> bool * W.
(** The nil channel: what [context.Background().Done()] returns. *)
Variable nil_chan : Chan.
(** [time.After] and [rand.Int63n]. *)
Variable time_After : Duration -> W -> Chan * W.
Variable rand_Int63n : Z -> W -> Z * W.
(** [json.Unmarshal] into the error envelope (see [DecodeWatsonxError]). *)
Variable json_Unmarshal : list byte -> option WatsonxErrorResponse.

(** [OnRetryFunc], [RetryIfFunc]: non-nil function values that return. *)
Definition OnRetryFunc := N -> error -> W -> W.
Definition RetryIfFunc := error -> W -> bool * W.

(** The [Timer] interface. *)
Record Timer := mkTimer {
  After : Duration -> W -> Chan * W
}.

(** The two methods of [context.Context] that [Retry] calls. *)
Record Context := mkContext {
  Err  : W -> error;
  Done : Chan
}.

Record RetryConfig := mkRetryConfig {
  retries   : N;
  backoff   : Duration;
  maxJitter : Duration;
  onRetry   : OnRetryFunc;
  retryIf   : RetryIfFunc;
  timer     : Timer;
  context   : Context
}.

(** [RetryOption]: a function that assigns fields of the configuration it
    is given, or nil ([None]). *)
Definition RetryOption := option (RetryConfig -> RetryConfig).

(** [timerImpl]. *)
Definition timerImpl : Timer := {| After := time_After |}.

(** [context.Background()]: never cancelled. *)
Definition Background : Context :=
  {| Err := fun _ => None; Done := nil_chan |}.

(** The default [retryIf]: retry on any error. *)
Definition default_retryIf : RetryIfFunc :=
  fun err w => (match err with Some _ => true | None => false end, w).

(** The default [onRetry]: no-op. *)
Definition default_onRetry : OnRetryFunc := fun _ _ w => w.

Definition newDefaultRetryConfig : RetryConfig :=
  {| retries   := 3;
     backoff   := 1 * Second;
     maxJitter := 1 * Second;
     onRetry   := default_onRetry;
     retryIf   := default_retryIf;
     timer     := timerImpl;
     context   := Background |}.

Definition WithRetries (r : N) : RetryOption :=
  Some (fun cfg =>
    {| retries := r; backoff := backoff cfg; maxJitter := maxJitter cfg;
       onRetry := onRetry cfg; retryIf := retryIf cfg;
       timer := timer cfg; context := context cfg |}).

Definition WithBackoff (b : Duration) : RetryOption :=
  Some (fun cfg =>
    {| retries := retries cfg; backoff := b; maxJitter := maxJitter cfg;
       onRetry := onRetry cfg; retryIf := retryIf cfg;
       timer := timer cfg; context := context cfg |}).

Definition WithMaxJitter (j : Duration) : RetryOption :=
  Some (fun cfg =>
    {| retries := retries cfg; backoff := backoff cfg; maxJitter := j;
       onRetry := onRetry cfg; retryIf := retryIf cfg;
       timer := timer cfg; context := context cfg |}).

Definition WithOnRetry (g : OnRetryFunc) : RetryOption :=
  Some (fun cfg =>
    {| retries := retries cfg; backoff := backoff cfg;
       maxJitter := maxJitter cfg;
       onRetry := g; retryIf := retryIf cfg;
       timer := timer cfg; context := context cfg |}).

Definition WithRetryIf (p : RetryIfFunc) : RetryOption :=
  Some (fun cfg =>
    {| retries := retries cfg; backoff := backoff cfg;
       maxJitter := maxJitter cfg;
       onRetry := onRetry cfg; retryIf := p;
       timer := timer cfg; context := context cfg |}).

(** [for _, opt := range options { if opt != nil { opt(opts) } }]. *)
Definition apply_options (options : list RetryOption) (cfg : RetryConfig)
  : RetryConfig :=
  fold_left (fun c opt => match opt with Some g => g c | None => c end)
            options cfg.

(** [RetryableFuncWithResponse]. *)
Definition RetryableFuncWithResponse := W -> (option Response * error) * W.

(* --------------------------------------------------------------- *)
(** *** The monad of [Retry]: world passing, with the record of calls *)

Definition M (A : Type) : Type := W -> A * W * list Event.

Definition ret {A} (a : A) : M A := fun w => (a, w, []).

Definition bind {A B} (m : M A) (k : A -> M B) : M B :=
  fun w =>
    let '(a, w1, t1) := m w in
    let '(b, w2, t2) := k a w1 in
    (b, w2, t1 ++ t2).

Notation "x <- m ;; k" := (bind m (fun x => k))
  (at level 61, m at next level, right associativity).

(** [opts.context.Err()]. *)
Definition ctx_Err (opts : RetryConfig) : M error :=
  fun w => (Err (context opts) w, w, []).

(** [retryableFunc()]. *)
Definition call (f : RetryableFuncWithResponse) : M (option Response * error) :=
  fun w => let '(resp, err, w1) := f w in ((resp, err), w1, [Called resp err]).

(** [opts.retryIf(err)]. *)
Definition ask_retryIf (opts : RetryConfig) (err : error) : M bool :=
  fun w => let '(b, w1) := retryIf opts err w in (b, w1, [AskedRetryIf err b]).

(** [opts.onRetry(n, err)]. *)
Definition call_onRetry (opts : RetryConfig) (n : N) (err : error) : M unit :=
  fun w => (tt, onRetry opts n err w, [OnRetryCalled n err]).

(** Lines 82-96: a response that came without an error is turned into a
    detailed error: the error of reading its body, or else what
    [DecodeWatsonxError] makes of the response with its body restored. *)
Definition classify (resp : option Response) (err : error) : error :=
  match err, resp with
  | None, Some r =>
    let '(bodyBytes, readErr, _) := io_ReadAll (Body r) in
    match readErr with
    | Some _ => readErr
    | None =>
      fst (DecodeWatsonxError json_Unmarshal
             (Some {| resp_StatusCode := resp_StatusCode r;
                      Body := NopCloser_NewBuffer bodyBytes |}))
    end
  | _, _ => err
  end.

(** Lines 105-109: the backoff, plus a jitter below [maxJitter] when
    that is positive; the sum is an [int64]. *)
Definition backoffDuration (opts : RetryConfig) : M Duration :=
  if 0 <? maxJitter opts then
    fun w => let '(jitter, w1) := rand_Int63n (maxJitter opts) w in
             (int64 (backoff opts + jitter), w1, [])
  else ret (backoff opts).

(** Lines 111-115: the [select].  The channel expressions are evaluated
    in source order, then the runtime picks the case. *)
Definition wait (opts : RetryConfig) (d : Duration) : M bool :=
  fun w =>
    let '(c, w1) := After (timer opts) d w in
    let '(fired, w2) := select2 c (Done (context opts)) w1 in
    (fired, w2, [Waited d fired]).

(** The loop [for n := uint(0); n < opts.retries; n++] from index [n]
    on, with [remaining = opts.retries - n] iterations to go. *)
Fixpoint retry_loop (opts : RetryConfig) (f : RetryableFuncWithResponse)
         (remaining : nat) (n : N) (lastErr : error)
  : M (option Response * error) :=
  match remaining with
  | O => ret (None, lastErr)
  | S k =>
    cerr <- ctx_Err opts ;;
    match cerr with
    | Some _ => ret (None, cerr)
    | None =>
      out <- call f ;;
      let '(resp, err) := out in
      if is_success resp err then ret (resp, None)
      else
        let err := classify resp err in
        again <- ask_retryIf opts err ;;
        if negb again then ret (None, err)
        else
          _ <- call_onRetry opts (uint (n + 1)) err ;;
          backoffDuration <- backoffDuration opts ;;
          fired <- wait opts backoffDuration ;;
          if fired then retry_loop opts f k (uint (n + 1)) err
          else
            cerr' <- ctx_Err opts ;;
            ret (None, cerr')
    end
  end.

(** [Retry]. *)
Definition Retry (retryableFunc : RetryableFuncWithResponse)
           (options : list RetryOption) : M (option Response * error) :=
  let opts := apply_options options newDefaultRetryConfig in
  retry_loop opts retryableFunc (N.to_nat (retries opts)) 0%N None.

(* --------------------------------------------------------------- *)
(** *** Vocabulary of the statements *)

(** A failed attempt: a non-nil error, or a response whose status is
    not OK. *)
Definition failure (resp : option Response) (err : error) : Prop :=
  err <> None \/ exists r, resp = Some r /\ resp_StatusCode r <> StatusOK.

(** An operation that fails whenever it is invoked. *)
Definition always_fails (f : RetryableFuncWithResponse) : Prop :=
  forall w, failure (fst (fst (f w))) (snd (fst (f w))).

(** An operation that never returns [(nil, nil)]. *)
Definition never_empty_handed (f : RetryableFuncWithResponse) : Prop :=
  forall w, fst (f w) <> (None, None).

(** A context that is never cancelled: [Err] is always nil and the
    [select] never takes the case of [Done]. *)
Definition never_cancelled (opts : RetryConfig) : Prop :=
  (forall w, Err (context opts) w = None) /\
  (forall c w, fst (select2 c (Done (context opts)) w) = true).

(** The contract of [context.Context]: once [Done] is closed, [Err] is
    non-nil. *)
Definition ctx_contract (opts : RetryConfig) : Prop :=
  forall c w w', select2 c (Done (context opts)) w = (false, w') ->
                 Err (context opts) w' <> None.

(** The invariant the data model states for a configuration. *)
Definition config_invariant (cfg : RetryConfig) : Prop :=
  (1 <= retries cfg)%N /\ 0 <= backoff cfg /\ 0 <= maxJitter cfg.

(** The options the package exports (and nil), with arguments that keep
    the invariant. *)
Inductive keeps_invariant : RetryOption -> Prop :=
| keeps_nil : keeps_invariant None
| keeps_WithRetries (r : N) : (1 <= r)%N -> keeps_invariant (WithRetries r)
| keeps_WithBackoff (b : Duration) : 0 <= b -> keeps_invariant (WithBackoff b)
| keeps_WithMaxJitter (j : Duration) :
    0 <= j -> keeps_invariant (WithMaxJitter j)
| keeps_WithOnRetry (g : OnRetryFunc) : keeps_invariant (WithOnRetry g)
| keeps_WithRetryIf (p : RetryIfFunc) : keeps_invariant (WithRetryIf p).

End Engine.

(* ================================================================= *)
(** ** A decoder for the error envelope

    [json_Unmarshal] above stands for [encoding/json], which is not part
    of this package.  To run [DecodeWatsonxError] and [Retry] on concrete
    documents, this module gives one decoder of the wire format
    [{ errors: [ {code, message, more_info}, ... ], trace }]: unknown
    members are ignored, a missing or null member keeps its zero value, a
    member of the wrong type is an error, and so is anything that is not
    one JSON value.  Member names are matched exactly, and the reader
    takes JSON without [\u] escapes. *)
Module EnvelopeJSON.

Inductive json :=
| JNull
| JBool (b : bool)
| JNumber (lexeme : list byte)
| JString (s : list byte)
| JArray (items : list json)
| JObject (members : list (list byte * json)).

Definition quote : byte := x22.
Definition backslash : byte := x5c.

Definition is_space (b : byte) : bool :=
  Byte.eqb b x20 || Byte.eqb b x09 || Byte.eqb b x0a || Byte.eqb b x0d.

Fixpoint skip_space (s : list byte) : list byte :=
  match s with
  | b :: s' => if is_space b then skip_space s' else s
  | [] => []
  end.

(** The byte an escape letter stands for. *)
Definition unescape (b : byte) : option byte :=
  if Byte.eqb b quote then Some quote
  else if Byte.eqb b backslash then Some backslash
  else if Byte.eqb b "/"%byte then Some "/"%byte
  else if Byte.eqb b "n"%byte then Some x0a
  else if Byte.eqb b "t"%byte then Some x09
  else if Byte.eqb b "r"%byte then Some x0d
  else if Byte.eqb b "b"%byte then Some x08
  else if Byte.eqb b "f"%byte then Some x0c
  else None.

(** The rest of a string literal, after its opening quote. *)
Fixpoint parse_string (s : list byte) : option (list byte * list byte) :=
  match s with
  | [] => None
  | b :: rest =>
    if Byte.eqb b quote then Some ([], rest)
    else if Byte.eqb b backslash then
      match rest with
      | e :: rest' =>
        match unescape e, parse_string rest' with
        | Some c, Some (str, r) => Some (c :: str, r)
        | _, _ => None
        end
      | [] => None
      end
    else if (Byte.to_N b <? 32)%N then None
    else
      match parse_string rest with
      | Some (str, r) => Some (b :: str, r)
      | None => None
      end
  end.

Definition is_number_byte (b : byte) : bool :=
  let n := Byte.to_N b in
  ((48 <=? n) && (n <=? 57))%N
  || Byte.eqb b "-"%byte || Byte.eqb b "+"%byte || Byte.eqb b "."%byte
  || Byte.eqb b "e"%byte || Byte.eqb b "E"%byte.

Fixpoint parse_number (s : list byte) : list byte * list byte :=
  match s with
  | b :: rest =>
    if is_number_byte b then
      let '(lexeme, r) := parse_number rest in (b :: lexeme, r)
    else ([], s)
  | [] => ([], [])
  end.

(** [strip_prefix p s]: [s] without its prefix [p]. *)
Fixpoint strip_prefix (p s : list byte) : option (list byte) :=
  match p, s with
  | [], _ => Some s
  | a :: p', b :: s' => if Byte.eqb a b then strip_prefix p' s' else None
  | _ :: _, [] => None
  end.

Fixpoint parse_value (fuel : nat) (s : list byte) {struct fuel}
  : option (json * list byte) :=
  match fuel with
  | O => None
  | S fuel' =>
    match skip_space s with
    | [] => None
    | b :: rest =>
      if Byte.eqb b quote then
        match parse_string rest with
        | Some (str, r) => Some (JString str, r)
        | None => None
        end
      else if Byte.eqb b "["%byte then
        match skip_space rest with
        | c :: r =>
          if Byte.eqb c "]"%byte then Some (JArray [], r)
          else parse_items fuel' rest []
        | [] => None
        end
      else if Byte.eqb b "{"%byte then
        match skip_space rest with
        | c :: r =>
          if Byte.eqb c "}"%byte then Some (JObject [], r)
          else parse_members fuel' rest []
        | [] => None
        end
      else if is_number_byte b then
        let '(lexeme, r) := parse_number (b :: rest) in
        Some (JNumber lexeme, r)
      else
        match strip_prefix (list_byte_of_string "null") (b :: rest),
              strip_prefix (list_byte_of_string "true") (b :: rest),
              strip_prefix (list_byte_of_string "false") (b :: rest) with
        | Some r, _, _ => Some (JNull, r)
        | _, Some r, _ => Some (JBool true, r)
        | _, _, Some r => Some (JBool false, r)
        | _, _, _ => None
        end
    end
  end
with parse_items (fuel : nat) (s : list byte) (acc : list json)
       {struct fuel} : option (json * list byte) :=
  match fuel with
  | O => None
  | S fuel' =>
    match parse_value fuel' s with
    | None => None
    | Some (v, r) =>
      match skip_space r with
      | c :: r' =>
        if Byte.eqb c ","%byte then parse_items fuel' r' (v :: acc)
        else if Byte.eqb c "]"%byte then Some (JArray (rev (v :: acc)), r')
        else None
      | [] => None
      end
    end
  end
with parse_members (fuel : nat) (s : list byte)
       (acc : list (list byte * json))
       {struct fuel} : option (json * list byte) :=
  match fuel with
  | O => None
  | S fuel' =>
    match skip_space s with
    | q :: s1 =>
      if Byte.eqb q quote then
        match parse_string s1 with
        | None => None
        | Some (key, s2) =>
          match skip_space s2 with
          | c :: s3 =>
            if Byte.eqb c ":"%byte then
              match parse_value fuel' s3 with
              | None => None
              | Some (v, r) =>
                match skip_space r with
                | d :: r' =>
                  if Byte.eqb d ","%byte then
                    parse_members fuel' r' ((key, v) :: acc)
                  else if Byte.eqb d "}"%byte then
                    Some (JObject (rev ((key, v) :: acc)), r')
                  else None
                | [] => None
                end
              end
            else None
          | [] => None
          end
        end
      else None
    | [] => None
    end
  end.

(** One whole document: a value, then only white space. *)
Definition parse (s : list byte) : option json :=
  match parse_value (2 * List.length s + 2) s with
  | Some (v, rest) =>
    match skip_space rest with
    | [] => Some v
    | _ :: _ => None
    end
  | None => None
  end.

Definition bytes_eqb (a b : list byte) : bool :=
  String.eqb (string_of_list_byte a) (string_of_list_byte b).

(** The member named [k]; of several, the last one. *)
Fixpoint member (k : string) (ms : list (list byte * json)) : option json :=
  match ms with
  | [] => None
  | (k', v) :: ms' =>
    match member k ms' with
    | Some v' => Some v'
    | None => if bytes_eqb (list_byte_of_string k) k' then Some v else None
    end
  end.

(** A string field: absent or null keeps [""]. *)
Definition string_field (k : string) (ms : list (list byte * json))
  : option string :=
  match member k ms with
  | None | Some JNull => Some ""
  | Some (JString s) => Some (string_of_list_byte s)
  | Some _ => None
  end.

Definition decode_detail (j : json) : option ErrorDetail :=
  match j with
  | JNull => Some {| Code := ""; Message := ""; MoreInfo := "" |}
  | JObject ms =>
    match string_field "code" ms, string_field "message" ms,
          string_field "more_info" ms with
    | Some c, Some m, Some i =>
      Some {| Code := c; Message := m; MoreInfo := i |}
    | _, _, _ => None
    end
  | _ => None
  end.

Fixpoint decode_details (l : list json) : option (list ErrorDetail) :=
  match l with
  | [] => Some []
  | j :: l' =>
    match decode_detail j, decode_details l' with
    | Some d, Some ds => Some (d :: ds)
    | _, _ => None
    end
  end.

Definition decode_envelope (j : json) : option WatsonxErrorResponse :=
  match j with
  | JNull => Some {| envelope_Errors := []; envelope_Trace := "" |}
  | JObject ms =>
    let errors :=
      match member "errors" ms with
      | None | Some JNull => Some []
      | Some (JArray l) => decode_details l
      | Some _ => None
      end in
    match errors, string_field "trace" ms with
    | Some es, Some t => Some {| envelope_Errors := es; envelope_Trace := t |}
    | _, _ => None
    end
  | _ => None
  end.

Definition Unmarshal (body : list byte) : option WatsonxErrorResponse :=
  match parse body with
  | Some j => decode_envelope j
  | None => None
  end.

(** JSON text written with ['] where the document has a double quote. *)
Definition text (s : string) : list byte :=
  map (fun b => if Byte.eqb b "'"%byte then quote else b)
      (list_byte_of_string s).

End EnvelopeJSON.

(* ================================================================= *)
(** ** A simulated world

    A concrete world to run [Retry] in: a clock, a context with an
    optional deadline, a server that counts the requests it has answered,
    and a caller that notes the attempt numbers [onRetry] is given.  The
    simulated [select] takes the context's case when the deadline is not
    later than the timer. *)
Module Sim.

Record World := mkWorld {
  clock    : Z;
  deadline : option Z;
  served   : nat;
  notified : list N
}.

Inductive Chan :=
| TimerChan (fires_at : Z)
| DoneChan
| NilChan.

Definition at_time (t : Z) (w : World) : World :=
  {| clock := Z.max (clock w) t; deadline := deadline w;
     served := served w; notified := notified w |}.

Definition select2 (c1 c2 : Chan) (w : World) : bool * World :=
  match c1, c2, deadline w with
  | TimerChan t, DoneChan, Some limit =>
    if limit <=? t then (false, at_time limit w) else (true, at_time t w)
  | TimerChan t, _, _ => (true, at_time t w)
  | _, _, _ => (true, w)
  end.

Definition time_After (d : Duration) (w : World) : Chan * World :=
  (TimerChan (clock w + d), w).

Definition rand_Int63n (n : Z) (w : World) : Z * World :=
  ((clock w + 1) mod n, w).

(** A context with the world's deadline. *)
Definition ctx : Context World Chan :=
  {| Err := fun w =>
       match deadline w with
       | Some limit =>
         if limit <=? clock w
         then Some (OtherErr "context deadline exceeded") else None
       | None => None
       end;
     Done := DoneChan |}.

(** An option written inside the package: it assigns [cfg.context]. *)
Definition with_ctx : RetryOption World Chan :=
  Some (fun cfg =>
    {| retries := retries cfg; backoff := backoff cfg;
       maxJitter := maxJitter cfg;
       onRetry := onRetry cfg; retryIf := retryIf cfg;
       timer := timer cfg; context := ctx |}).

Definition answered (w : World) : World :=
  {| clock := clock w; deadline := deadline w;
     served := S (served w); notified := notified w |}.

(** A server that answers every request with [status] and [body]. *)
Definition respond (status : Z) (body : list byte)
  : RetryableFuncWithResponse World :=
  fun w =>
    ((Some {| resp_StatusCode := status;
              Body := NopCloser_NewBuffer body |}, None), answered w).

Definition ok_body : list byte := EnvelopeJSON.text "{'content':'success'}".

Definition envelope_body : list byte :=
  EnvelopeJSON.text
    "{'errors':[{'code':'invalid_request','message':'Invalid input parameter','more_info':'Check request payload'}],'trace':'trace-id-123'}".

Definition always_ok : RetryableFuncWithResponse World := respond 200 ok_body.
Definition too_many_requests : RetryableFuncWithResponse World :=
  respond 429 [].
Definition bad_request : RetryableFuncWithResponse World :=
  respond 400 envelope_body.

(** No connection: a transport error and no response. *)
Definition unreachable : RetryableFuncWithResponse World :=
  fun w => ((None, Some (OtherErr "connection refused")), answered w).

(** An operation that returns [(nil, nil)]. *)
Definition nothing : RetryableFuncWithResponse World :=
  fun w => ((None, None), answered w).

(** A server that fails twice, then succeeds. *)
Definition flaky : RetryableFuncWithResponse World :=
  fun w => if (served w <? 2)%nat then respond 500 [] w
           else respond 200 ok_body w.

(** An [onRetry] that notes the attempt number. *)
Definition note_attempt : OnRetryFunc World :=
  fun n _ w =>
    {| clock := clock w; deadline := deadline w;
       served := served w; notified := notified w ++ [n] |}.

(** A [retryIf] that gives up on client errors (status below 500). *)
Definition only_server_errors : RetryIfFunc World :=
  fun err w =>
    (match err with
     | Some (WatsonxErr e) => 500 <=? StatusCode e
     | Some (OtherErr _) => true
     | None => false
     end, w).

(** The envelope that [envelope_body] spells. *)
Definition envelope_value : WatsonxErrorResponse :=
  {| envelope_Errors :=
       [{| Code := "invalid_request";
           Message := "Invalid input parameter";
           MoreInfo := "Check request payload" |}];
     envelope_Trace := "trace-id-123" |}.

(** Responses as a server sends them. *)
Definition bad_request_response : Response :=
  {| resp_StatusCode := 400; Body := NopCloser_NewBuffer envelope_body |}.

Definition bad_gateway_response : Response :=
  {| resp_StatusCode := 502;
     Body := NopCloser_NewBuffer
               (EnvelopeJSON.text "<html>Bad Gateway</html>") |}.

Definition internal_error_response : Response :=
  {| resp_StatusCode := 500; Body := NopCloser_NewBuffer [] |}.

(** A response whose body breaks off while it is read. *)
Definition cut_off_response : Response :=
  {| resp_StatusCode := 503;
     Body := {| pending := EnvelopeJSON.text "{'errors':[";
                read_err := Some (OtherErr "unexpected EOF") |} |}.

Definition start : World :=
  {| clock := 0; deadline := None; served := 0; notified := [] |}.

Definition start_with_deadline (limit : Z) : World :=
  {| clock := 0; deadline := Some limit; served := 0; notified := [] |}.

(** [Retry] in the simulated world, with the envelope decoder. *)
Definition run (f : RetryableFuncWithResponse World)
           (options : list (RetryOption World Chan)) (w : World)
  : (option Response * error) * World * list Event :=
  Retry select2 NilChan time_After rand_Int63n EnvelopeJSON.Unmarshal
        f options w.

(** The attempt loop in the simulated world. *)
Definition loop (opts : RetryConfig World Chan)
           (f : RetryableFuncWithResponse World)
           (remaining : nat) (n : N) (lastErr : error) (w : World)
  : (option Response * error) * World * list Event :=
  retry_loop select2 rand_Int63n EnvelopeJSON.Unmarshal
             opts f remaining n lastErr w.

(** The configuration [options] lead to in the simulated world. *)
Definition config (options : list (RetryOption World Chan))
  : RetryConfig World Chan :=
  apply_options options (newDefaultRetryConfig NilChan time_After).

End Sim.

(* ================================================================= *)
(** ** errors.go: the error string *)

(** [fmt.Sprintf] of an [int] under [%d]: decimal digits, with a leading
    [-] for a negative number. *)
Definition Sprintf_d (n : Z) : string :=
  DecimalString.NilZero.string_of_int (Z.to_int n).

(** [(e *WatsonxError) Error()]. *)
Definition Error (e : WatsonxError) : string :=
  match Errors e with
  | d :: _ =>
    ("watsonx error (" ++ Sprintf_d (StatusCode e) ++ "): "
       ++ Code d ++ " - " ++ Message d)%string
  | [] => ("watsonx error (" ++ Sprintf_d (StatusCode e) ++ ")")%string
  end.

(* ================================================================= *)
(** ** retry.go: the options the package exports, and the waits *)

Section Options.

Variable W : Type.
Variable Chan : Type.

(** An option made by one of the exported constructors, or nil. *)
Inductive exported_option : RetryOption W Chan -> Prop :=
| exported_nil : exported_option None
| exported_WithRetries (r : N) : exported_option (WithRetries W Chan r)
| exported_WithBackoff (b : Duration) :
    exported_option (WithBackoff W Chan b)
| exported_WithMaxJitter (j : Duration) :
    exported_option (WithMaxJitter W Chan j)
| exported_WithOnRetry (g : OnRetryFunc W) :
    exported_option (WithOnRetry Chan g)
| exported_WithRetryIf (p : RetryIfFunc W) :
    exported_option (WithRetryIf Chan p).

(** What a call of an exported constructor asks for ([Unset] for a nil
    option), and the option it makes. *)
Inductive Setting :=
| SetRetries (r : N)
| SetBackoff (b : Duration)
| SetMaxJitter (j : Duration)
| SetOnRetry (g : OnRetryFunc W)
| SetRetryIf (p : RetryIfFunc W)
| Unset.

Definition option_of (s : Setting) : RetryOption W Chan :=
  match s with
  | SetRetries r => WithRetries W Chan r
  | SetBackoff b => WithBackoff W Chan b
  | SetMaxJitter j => WithMaxJitter W Chan j
  | SetOnRetry g => WithOnRetry Chan g
  | SetRetryIf p => WithRetryIf Chan p
  | Unset => None
  end.

(** The value the last setting of a kind asks for, [d] when there is
    none of this kind; [pick] tells the kind. *)
Definition last_setting {A : Type} (pick : Setting -> option A)
           (l : list Setting) (d : A) : A :=
  fold_left (fun acc s => match pick s with Some a => a | None => acc end)
            l d.

Definition asks_retries (s : Setting) : option N :=
  match s with SetRetries r => Some r | _ => None end.
Definition asks_backoff (s : Setting) : option Duration :=
  match s with SetBackoff b => Some b | _ => None end.
Definition asks_maxJitter (s : Setting) : option Duration :=
  match s with SetMaxJitter j => Some j | _ => None end.
Definition asks_onRetry (s : Setting) : option (OnRetryFunc W) :=
  match s with SetOnRetry g => Some g | _ => None end.
Definition asks_retryIf (s : Setting) : option (RetryIfFunc W) :=
  match s with SetRetryIf p => Some p | _ => None end.

(** The contract of [rand.Int63n] for a positive bound: a number in
    [[0, n)]. *)
Definition Int63n_contract (rand_Int63n : Z -> W -> Z * W) : Prop :=
  forall n w, 0 < n -> 0 <= fst (rand_Int63n n w) < n.

End Options.

(** The durations of the waits of a run, added up. *)
Fixpoint total_wait (tr : list Event) : Z :=
  match tr with
  | [] => 0
  | Waited d _ :: tr' => d + total_wait tr'
  | _ :: tr' => total_wait tr'
  end.

(* ================================================================= *)
(** ** retry.go: the retrying client *)

(** The [Body] of a request: nil, the marker [http.NoBody], or a
    stream. *)
Inductive RequestBody :=
| NilBody
| NoBody
| StreamBody (s : ReadCloser).

(** The part of [http.Request] the package and a transport look at. *)
Record Request := mkRequest {
  Method   : string;
  URL      : string;
  req_Body : RequestBody
}.

(** The assignment [req.Body = b]. *)
Definition set_Body (req : Request) (b : RequestBody) : Request :=
  {| Method := Method req; URL := URL req; req_Body := b |}.

(** [io.NopCloser(bytes.NewReader(b))]: a fresh in-memory stream over
    [b]. *)
Definition NopCloser_NewReader (b : list byte) : ReadCloser :=
  {| pending := b; read_err := None |}.

(** What [getReusableBody] returns: [(getBody, nil)] or [(nil, err)]. *)
Inductive ReusableBody :=
| Supplier (getBody : unit -> RequestBody)
| ReadFailed (err : error_value).

(** [getReusableBody].  The second component is the request as the call
    leaves it: a stream body has been read. *)
Definition getReusableBody (req : Request) : ReusableBody * Request :=
  match req_Body req with
  | NilBody | NoBody => (Supplier (fun _ => NoBody), req)
  | StreamBody s =>
    (* Read the entire body *)
    let '(bodyBytes, err, drained) := io_ReadAll s in
    match err with
    | Some e => (ReadFailed e, set_Body req (StreamBody drained))
    | None =>
      (Supplier (fun _ => StreamBody (NopCloser_NewReader bodyBytes)),
       set_Body req (StreamBody drained))
    end
  end.

Section Client.

Variable W : Type.
Variable Chan : Type.
Variable select2 : Chan -> Chan -> W -> bool * W.
Variable nil_chan : Chan.
Variable time_After : Duration -> W -> Chan * W.
Variable rand_Int63n : Z -> W -> Z * W.
Variable json_Unmarshal : list byte -> option WatsonxErrorResponse.

(** [Do] of [http.Client]: it reads the request, acts on the world, and
    leaves [req.Body] in some state of its own choosing (read in part or
    in full); the other fields of the request it leaves alone. *)
Definition Transport : Type :=
  Request -> W -> (option Response * error) * W * RequestBody.

(** [HttpClient]. *)
Record HttpClient := mkHttpClient {
  httpClient : Transport
}.

(** [(c *HttpClient) Do]. *)
Definition Do (c : HttpClient) (req : Request) (w : W)
  : (option Response * error) * W * RequestBody :=
  httpClient c req w.

(** The world of [DoWithRetry]: the world outside, and the request object
    that its closure captures and assigns to. *)
Definition ClientWorld : Type := W * Request.

Definition client_select2 (c1 c2 : Chan) (cw : ClientWorld)
  : bool * ClientWorld :=
  let '(fired, w') := select2 c1 c2 (fst cw) in (fired, (w', snd cw)).

Definition client_time_After (d : Duration) (cw : ClientWorld)
  : Chan * ClientWorld :=
  let '(c, w') := time_After d (fst cw) in (c, (w', snd cw)).

Definition client_rand_Int63n (n : Z) (cw : ClientWorld)
  : Z * ClientWorld :=
  let '(j, w') := rand_Int63n n (fst cw) in (j, (w', snd cw)).

(** The closure [DoWithRetry] passes to [Retry]:
    [req.Body = getBody(); return c.httpClient.Do(req)]. *)
Definition send (c : HttpClient) (getBody : unit -> RequestBody)
  : RetryableFuncWithResponse ClientWorld :=
  fun cw =>
    let req := set_Body (snd cw) (getBody tt) in
    let '(out, w', body') := httpClient c req (fst cw) in
    (out, (w', set_Body req body')).

(** [(c *HttpClient) DoWithRetry]. *)
Definition DoWithRetry (c : HttpClient) (req : Request) (w : W)
  : (option Response * error) * ClientWorld * list Event :=
  match getReusableBody req with
  | (ReadFailed e, req') => ((None, Some e), (w, req'), [])
  | (Supplier getBody, req') =>
    Retry client_select2 nil_chan client_time_After client_rand_Int63n
          json_Unmarshal (send c getBody) [] (w, req')
  end.

(** The operation [DoWithRetry] would run if every attempt were handed a
    request with the body as it first was. *)
Definition send_pristine (c : HttpClient) (req : Request)
           (getBody : unit -> RequestBody) : RetryableFuncWithResponse W :=
  fun w =>
    let '(out, w', _) := httpClient c (set_Body req (getBody tt)) w in
    (out, w').

End Client.

(* ================================================================= *)
(** ** A simulated transport *)
Module SimClient.

(** What a transport leaves of a request body it has sent: a stream is
    read to its end. *)
Definition sent (b : RequestBody) : RequestBody :=
  match b with
  | StreamBody s => StreamBody (snd (io_ReadAll s))
  | NilBody => NilBody
  | NoBody => NoBody
  end.

(** The bytes a transport puts on the wire for a request body. *)
Definition wire (b : RequestBody) : list byte :=
  match b with
  | StreamBody s => fst (fst (io_ReadAll s))
  | NilBody | NoBody => []
  end.

(** A server that fails twice with status 500, then answers 200 with the
    bytes it was sent. *)
Definition echo : Transport Sim.World :=
  fun req w =>
    ((Some (if (Sim.served w <? 2)%nat
            then {| resp_StatusCode := 500; Body := NopCloser_NewBuffer [] |}
            else {| resp_StatusCode := 200;
                    Body := NopCloser_NewBuffer (wire (req_Body req)) |}),
      None),
     Sim.answered w, sent (req_Body req)).

(** A server that is always unavailable. *)
Definition unavailable : Transport Sim.World :=
  fun req w =>
    ((Some {| resp_StatusCode := 503; Body := NopCloser_NewBuffer [] |},
      None),
     Sim.answered w, sent (req_Body req)).

Definition post (body : ReadCloser) : Request :=
  {| Method := "POST"; URL := "https://example.test/generation";
     req_Body := StreamBody body |}.

Definition prompt : list byte := EnvelopeJSON.text "{'input':'hello'}".

(** A request body that breaks off while it is read. *)
Definition cut_off : ReadCloser :=
  {| pending := EnvelopeJSON.text "{'input':";
     read_err := Some (OtherErr "unexpected EOF") |}.

(** [DoWithRetry] in the simulated world. *)
Definition run (t : Transport Sim.World) (req : Request) (w : Sim.World)
  : (option Response * error) * ClientWorld Sim.World * list Event :=
  DoWithRetry Sim.select2 Sim.NilChan Sim.time_After Sim.rand_Int63n
              EnvelopeJSON.Unmarshal {| httpClient := t |} req w.

End SimClient.

(* ================================================================= *)
(** ** Facts about the record of calls *)

Lemma count_calls_app (t1 t2 : list Event) :
  count_calls (t1 ++ t2) = (count_calls t1 + count_calls t2)%nat.
Proof. unfold count_calls. now rewrite filter_app, length_app. Qed.

Lemma count_onRetry_app (t1 t2 : list Event) :
  count_onRetry (t1 ++ t2) = (count_onRetry t1 + count_onRetry t2)%nat.
Proof. unfold count_onRetry. now rewrite filter_app, length_app. Qed.

Lemma count_waits_app (t1 t2 : list Event) :
  count_waits (t1 ++ t2) = (count_waits t1 + count_waits t2)%nat.
Proof. unfold count_waits. now rewrite filter_app, length_app. Qed.

Lemma onRetry_attempts_app (t1 t2 : list Event) :
  onRetry_attempts (t1 ++ t2) = onRetry_attempts t1 ++ onRetry_attempts t2.
Proof.
  induction t1 as [|e t1 IH]; simpl; [reflexivity|].
  destruct e; simpl; now rewrite IH.
Qed.

Lemma uint_small (n : N) : (n < 2 ^ 64)%N -> uint n = n.
Proof. intro H. unfold uint. now apply N.mod_small. Qed.

(* ================================================================= *)
(** ** Facts about the attempt loop *)

Section EngineFacts.

Variable W : Type.
Variable Chan : Type.
Variable select2 : Chan -> Chan -> W -> bool * W.
Variable nil_chan : Chan.
Variable time_After : Duration -> W -> Chan * W.
Variable rand_Int63n : Z -> W -> Z * W.
Variable json_Unmarshal : list byte -> option WatsonxErrorResponse.

Local Abbreviation loop := (retry_loop select2 rand_Int63n json_Unmarshal).
Local Abbreviation Retry' :=
  (Retry select2 nil_chan time_After rand_Int63n json_Unmarshal).
Local Abbreviation classify' := (classify json_Unmarshal).
Local Abbreviation default_config :=
  (newDefaultRetryConfig nil_chan time_After).

(** One iteration of the loop, spelled out. *)
Lemma retry_loop_step (opts : RetryConfig W Chan)
      (f : RetryableFuncWithResponse W) (k : nat) (n : N)
      (lastErr : error) (w : W) :
  loop opts f (S k) n lastErr w =
  match Err (context opts) w with
  | Some e => ((None, Some e), w, [])
  | None =>
    let '(resp, err, w1) := f w in
    if is_success resp err then ((resp, None), w1, [Called resp err])
    else
      let e := classify' resp err in
      let '(again, w2) := retryIf opts e w1 in
      if again then
        let w3 := onRetry opts (uint (n + 1)) e w2 in
        let '(d, w4, _) := backoffDuration rand_Int63n opts w3 in
        let '(c, w5) := After (timer opts) d w4 in
        let '(fired, w6) := select2 c (Done (context opts)) w5 in
        if fired then
          let '(res, w7, tr) := loop opts f k (uint (n + 1)) e w6 in
          (res, w7,
           [Called resp err; AskedRetryIf e true;
            OnRetryCalled (uint (n + 1)) e; Waited d true] ++ tr)
        else
          ((None, Err (context opts) w6), w6,
           [Called resp err; AskedRetryIf e true;
            OnRetryCalled (uint (n + 1)) e; Waited d false])
      else ((None, e), w2, [Called resp err; AskedRetryIf e false])
  end.
Proof.
  cbn [retry_loop]. unfold bind, ctx_Err, call, ret.
  destruct (Err (context opts) w) as [e|]; [reflexivity|].
  destruct (f w) as [[resp err] w1].
  destruct (is_success resp err); [reflexivity|].
  unfold ask_retryIf, call_onRetry, wait.
  destruct (retryIf opts (classify' resp err) w1) as [again w2].
  destruct again; cbn [negb]; [|reflexivity].
  destruct (backoffDuration rand_Int63n opts _) as [[d w4] t4] eqn:Hd.
  assert (t4 = []) as ->.
  { unfold backoffDuration, ret in Hd.
    destruct (0 <? maxJitter opts).
    - destruct (rand_Int63n _ _); now inversion Hd.
    - now inversion Hd. }
  destruct (After (timer opts) d w4) as [c w5].
  destruct (select2 c (Done (context opts)) w5) as [fired w6].
  destruct fired.
  - destruct (loop opts f k (uint (n + 1)) (classify' resp err) w6)
      as [[res w7] tr].
    reflexivity.
  - reflexivity.
Qed.

(** A failed attempt does not pass the success test. *)
Lemma failure_not_success (resp : option Response) (err : error) :
  failure resp err -> is_success resp err = false.
Proof.
  intros [H | [r [-> H]]]; unfold is_success.
  - destruct err; [reflexivity | contradiction].
  - destruct err; [reflexivity|]. now apply Z.eqb_neq.
Qed.

(** Whatever an attempt returned short of [(nil, nil)], its classified
    error is non-nil. *)
Lemma classify_not_nil (resp : option Response) (err : error) :
  (resp, err) <> (None, None) -> classify' resp err <> None.
Proof.
  intros H. unfold classify.
  destruct err as [e|]; [discriminate|].
  destruct resp as [r|]; [|contradiction].
  unfold io_ReadAll.
  destruct (read_err (Body r)) as [e|] eqn:E; [discriminate|].
  unfold DecodeWatsonxError, io_ReadAll; cbn.
  destruct (List.length (pending (Body r)) =? 0)%nat; [discriminate|].
  destruct (json_Unmarshal _); discriminate.
Qed.

Lemma failure_classify_not_nil (resp : option Response) (err : error) :
  failure resp err -> classify' resp err <> None.
Proof.
  intros H. apply classify_not_nil. intros E. inversion E; subst.
  destruct H as [H | [r [H _]]]; [contradiction | discriminate].
Qed.

(** C10. With zero attempts configured, as after [WithRetries(0)], [Retry]
    returns a nil response and a nil error, leaves the world as it found
    it and calls nothing: not the operation, not [onRetry], not the retry
    predicate. *)
Theorem Retry_zero_attempts (f : RetryableFuncWithResponse W)
        (options : list (RetryOption W Chan)) (w : W) :
  retries (apply_options options default_config) = 0%N ->
  Retry' f options w = ((None, None), w, []).
Proof.
  intros H. unfold Retry. rewrite H. reflexivity.
Qed.

(** C5. Whenever the retry predicate returns false for the classified
    error of the current attempt, the loop returns at once with a nil
    response and that error: after the operation and the predicate nothing
    more is called, no [onRetry], no wait, no further attempt.  This holds
    at every index of the loop, whatever number of attempts remains, and
    so for [Retry] on its very first attempt. *)
Theorem Retry_predicate_veto (f : RetryableFuncWithResponse W)
        (w w1 w2 : W) (resp : option Response) (err : error) :
  f w = ((resp, err), w1) ->
  is_success resp err = false ->
  (forall (opts : RetryConfig W Chan) (k : nat) (n : N) (lastErr : error),
     Err (context opts) w = None ->
     retryIf opts (classify' resp err) w1 = (false, w2) ->
     loop opts f (S k) n lastErr w =
     ((None, classify' resp err), w2,
      [Called resp err; AskedRetryIf (classify' resp err) false]))
  /\
  (forall options : list (RetryOption W Chan),
     let opts := apply_options options default_config in
     (1 <= retries opts)%N ->
     Err (context opts) w = None ->
     retryIf opts (classify' resp err) w1 = (false, w2) ->
     Retry' f options w =
     ((None, classify' resp err), w2,
      [Called resp err; AskedRetryIf (classify' resp err) false])).
Proof.
  intros Hf Hs.
  assert (forall (opts : RetryConfig W Chan) k n lastErr,
     Err (context opts) w = None ->
     retryIf opts (classify' resp err) w1 = (false, w2) ->
     loop opts f (S k) n lastErr w =
     ((None, classify' resp err), w2,
      [Called resp err; AskedRetryIf (classify' resp err) false])) as Hloop.
  { intros opts k n lastErr Hc Hp.
    rewrite retry_loop_step, Hc, Hf, Hs. cbn zeta. now rewrite Hp. }
  split; [exact Hloop|].
  intros options opts Hr Hc Hp. unfold Retry. fold opts.
  destruct (N.to_nat (retries opts)) as [|k] eqn:E; [lia|].
  now apply Hloop.
Qed.

(** C3, as amended.  When at least one attempt is configured and the
    context is not cancelled at the start, an operation whose first
    invocation returns a nil error and a non-nil response with status 200
    makes [Retry] return exactly that response and a nil error, after one
    invocation of the operation and nothing else (no [onRetry], no
    predicate, no wait).  Conversely an outcome with a transport error, an
    absent response or a non-OK status does not pass the success test: the
    attempt goes on to ask the retry predicate about its classified
    error. *)
Theorem Retry_success_short_circuits (f : RetryableFuncWithResponse W)
        (options : list (RetryOption W Chan))
        (w w1 : W) (resp : option Response) (err : error) :
  (1 <= retries (apply_options options default_config))%N ->
  Err (context (apply_options options default_config)) w = None ->
  f w = ((resp, err), w1) ->
  (forall r, err = None -> resp = Some r -> resp_StatusCode r = StatusOK ->
     Retry' f options w = ((Some r, None), w1, [Called (Some r) None]))
  /\
  (err <> None \/ resp = None \/
   (exists r, resp = Some r /\ resp_StatusCode r <> StatusOK) ->
   is_success resp err = false /\
   exists answer rest,
     trace (Retry' f options w) =
     Called resp err :: AskedRetryIf (classify' resp err) answer :: rest).
Proof.
  intros Hr Hc Hf. unfold Retry.
  set (opts := apply_options options default_config) in *.
  destruct (N.to_nat (retries opts)) as [|k] eqn:E; [lia|].
  rewrite retry_loop_step, Hc, Hf. split.
  - intros r -> -> Hs. unfold is_success. rewrite Hs. reflexivity.
  - intros H.
    assert (is_success resp err = false) as Hs.
    { destruct H as [H | [-> | [r [-> H]]]]; unfold is_success.
      - destruct err; [reflexivity | contradiction].
      - now destruct err.
      - destruct err; [reflexivity|]. now apply Z.eqb_neq. }
    split; [exact Hs|]. rewrite Hs. cbn zeta.
    destruct (retryIf opts (classify' resp err) w1) as [again w2].
    destruct again; [|now eexists; eexists].
    destruct (backoffDuration rand_Int63n opts _) as [[d w4] t4].
    destruct (After (timer opts) d w4) as [c w5].
    destruct (select2 c (Done (context opts)) w5) as [fired w6].
    destruct fired.
    + destruct (loop opts f k _ _ w6) as [[res w7] tr].
      now eexists; eexists.
    + now eexists; eexists.
Qed.

(** C9. At every index of the loop: if the context is already cancelled
    when an attempt is about to start, the loop returns a nil response and
    the context's error, without invoking the operation or anything else.
    And in every run: if a backoff wait ended because the context's [Done]
    fired, that wait is the last thing the run did (no further attempt),
    and the run returned a nil response and the context's error. *)
Theorem Retry_cancellation (opts : RetryConfig W Chan)
        (f : RetryableFuncWithResponse W) (k : nat) (n : N)
        (lastErr : error) (w : W) :
  (forall e, Err (context opts) w = Some e ->
     loop opts f (S k) n lastErr w = ((None, Some e), w, []))
  /\
  (forall d, In (Waited d false) (trace (loop opts f k n lastErr w)) ->
     exists before,
       trace (loop opts f k n lastErr w) = before ++ [Waited d false] /\
       returned (loop opts f k n lastErr w) =
       (None, Err (context opts) (world_after (loop opts f k n lastErr w)))).
Proof.
  split.
  - intros e He. rewrite retry_loop_step, He. reflexivity.
  - revert n lastErr w.
    induction k as [|k IH]; intros n lastErr w d Hin.
    + cbn in Hin. contradiction.
    + revert Hin. rewrite retry_loop_step.
      destruct (Err (context opts) w) as [e|]; [intros []|].
      destruct (f w) as [[resp err] w1].
      destruct (is_success resp err).
      { cbn. intros [H|[]]. discriminate. }
      cbn zeta.
      destruct (retryIf opts (classify' resp err) w1) as [again w2].
      destruct again.
      2:{ cbn. intros [H|[H|[]]]; discriminate. }
      destruct (backoffDuration rand_Int63n opts _) as [[d0 w4] t4].
      destruct (After (timer opts) d0 w4) as [c w5].
      destruct (select2 c (Done (context opts)) w5) as [fired w6].
      destruct fired.
      * specialize (IH (uint (n + 1)) (classify' resp err) w6 d).
        destruct (loop opts f k (uint (n + 1)) (classify' resp err) w6)
          as [[res w7] tr].
        unfold trace, returned, world_after in *. cbn [fst snd] in *.
        intros Hin.
        assert (In (Waited d false) tr) as Htr.
        { cbn in Hin.
          destruct Hin as [H|[H|[H|[H|H]]]]; try discriminate. exact H. }
        destruct (IH Htr) as [before [-> Hres]].
        eexists (_ :: _ :: _ :: _ :: before). split; [reflexivity|exact Hres].
      * unfold trace, returned, world_after. cbn [fst snd].
        intros Hin. cbn in Hin.
        destruct Hin as [H|[H|[H|[H|[]]]]]; try discriminate.
        inversion H; subst.
        eexists [_; _; _]. split; reflexivity.
Qed.

(** The runs of an operation that always fails, under a predicate that
    answers as the default one does and a context that is never
    cancelled: every iteration goes the whole way round. *)
Lemma loop_always_fails (opts : RetryConfig W Chan)
      (f : RetryableFuncWithResponse W) :
  always_fails f ->
  (forall e w, retryIf opts e w = default_retryIf e w) ->
  never_cancelled select2 opts ->
  forall (k : nat) (n : N) (lastErr : error) (w : W),
    fst (returned (loop opts f k n lastErr w)) = None /\
    snd (returned (loop opts f k n lastErr w)) =
      match last_call (trace (loop opts f k n lastErr w)) with
      | Some (resp, err) => classify' resp err
      | None => lastErr
      end /\
    count_calls (trace (loop opts f k n lastErr w)) = k /\
    count_onRetry (trace (loop opts f k n lastErr w)) = k /\
    count_waits (trace (loop opts f k n lastErr w)) = k /\
    ((n + N.of_nat k < 2 ^ 64)%N ->
     onRetry_attempts (trace (loop opts f k n lastErr w)) =
     map (fun i => (n + N.of_nat i)%N) (seq 1 k)) /\
    match k with
    | O => trace (loop opts f k n lastErr w) = []
    | S _ =>
      last_call (trace (loop opts f k n lastErr w)) <> None /\
      snd (returned (loop opts f k n lastErr w)) <> None /\
      exists d before,
        trace (loop opts f k n lastErr w) = before ++ [Waited d true]
    end.
Proof.
  intros Hf Hp [Hc Hsel].
  induction k as [|k IH]; intros n lastErr w.
  - cbn. repeat (split; [reflexivity|]). reflexivity.
  - rewrite retry_loop_step, Hc.
    pose proof (Hf w) as Hfail.
    destruct (f w) as [[resp err] w1]. cbn [fst snd] in Hfail.
    rewrite (failure_not_success Hfail). cbn zeta.
    pose proof (failure_classify_not_nil Hfail) as Hne.
    rewrite Hp. unfold default_retryIf.
    destruct (classify' resp err) as [e|] eqn:He; [|contradiction].
    destruct (backoffDuration rand_Int63n opts _) as [[d w4] t4].
    destruct (After (timer opts) d w4) as [c w5].
    pose proof (Hsel c w5) as Hfired.
    destruct (select2 c (Done (context opts)) w5) as [fired w6].
    cbn [fst] in Hfired. subst fired.
    specialize (IH (uint (n + 1)) (Some e) w6).
    destruct (loop opts f k (uint (n + 1)) (Some e) w6) as [[res w7] tr].
    unfold trace, returned, world_after in *. cbn [fst snd] in *.
    destruct IH as (I1 & I2 & I3 & I4 & I5 & I6 & I7).
    assert (snd res <> None) as Hres.
    { destruct k; [|apply I7]. subst tr. cbn in I2. rewrite I2. discriminate. }
    split; [exact I1|]. split.
    { cbn [app last_call]. rewrite I2.
      destruct (last_call tr) as [[resp' err']|];
        [reflexivity | now rewrite He]. }
    split; [rewrite count_calls_app, I3; reflexivity|].
    split; [rewrite count_onRetry_app, I4; reflexivity|].
    split; [rewrite count_waits_app, I5; reflexivity|].
    split.
    { intros Hb.
      assert (uint (n + 1) = (n + 1)%N) as Hu by (apply uint_small; lia).
      rewrite onRetry_attempts_app. cbn [onRetry_attempts app].
      rewrite Hu in *. rewrite I6 by lia.
      cbn [seq map]. apply f_equal2; [lia|].
      rewrite <- (seq_shift k 1), map_map.
      apply map_ext. intros i. lia. }
    split; [cbn [app last_call]; now destruct (last_call tr)|].
    split; [exact Hres|].
    destruct k as [|k'].
    + subst tr. now exists d, [Called resp err; AskedRetryIf (Some e) true;
                               OnRetryCalled (uint (n + 1)) (Some e)].
    + destruct I7 as (_ & _ & d' & before & ->).
      exists d'. eexists (_ :: _ :: _ :: _ :: before). reflexivity.
Qed.

(** C4. For an operation that always fails, under the default retry
    predicate and with no cancellation, [Retry] invokes the operation
    exactly [retries] times and returns a nil response with the classified
    error of the most recent invocation alone (a non-nil error as soon as
    one attempt is configured). *)
Theorem Retry_exhaustion (f : RetryableFuncWithResponse W)
        (options : list (RetryOption W Chan)) (w : W) :
  always_fails f ->
  (forall e w', retryIf (apply_options options default_config) e w' =
                default_retryIf e w') ->
  never_cancelled select2 (apply_options options default_config) ->
  count_calls (trace (Retry' f options w)) =
    N.to_nat (retries (apply_options options default_config)) /\
  fst (returned (Retry' f options w)) = None /\
  snd (returned (Retry' f options w)) =
    match last_call (trace (Retry' f options w)) with
    | Some (resp, err) => classify' resp err
    | None => None
    end /\
  ((1 <= retries (apply_options options default_config))%N ->
   last_call (trace (Retry' f options w)) <> None /\
   snd (returned (Retry' f options w)) <> None).
Proof.
  intros Hf Hp Hc. unfold Retry.
  set (opts := apply_options options default_config) in *.
  destruct (loop_always_fails Hf Hp Hc (N.to_nat (retries opts)) 0%N None w)
    as (I1 & I2 & I3 & _ & _ & _ & I7).
  split; [exact I3|]. split; [exact I1|]. split; [exact I2|].
  intros Hr. destruct (N.to_nat (retries opts)) as [|k] eqn:E; [lia|].
  destruct I7 as (I7 & I8 & _). now split.
Qed.

(** C2, as amended.  After a failed attempt whose error the retry
    predicate accepts, the loop invokes [onRetry] with the 1-based number
    of the attempt and enters the backoff wait, whether or not further
    attempts remain ([k] is the number of attempts left after this one,
    and may be zero).  So for an operation that always fails, under the
    default predicate and with no cancellation, with [retries = m]:
    [onRetry] is invoked exactly [m] times, with the numbers [1..m] in
    order, exactly [m] waits occur, and the last thing a run with [m >= 1]
    does is the wait after the final attempt. *)
Theorem Retry_onRetry_and_wait_after_every_failure
        (f : RetryableFuncWithResponse W) :
  (forall (opts : RetryConfig W Chan) (k : nat) (n : N) (lastErr : error)
          (w w1 w2 : W) (resp : option Response) (err : error),
     Err (context opts) w = None ->
     f w = ((resp, err), w1) ->
     is_success resp err = false ->
     retryIf opts (classify' resp err) w1 = (true, w2) ->
     exists d fired rest,
       trace (loop opts f (S k) n lastErr w) =
       [Called resp err;
        AskedRetryIf (classify' resp err) true;
        OnRetryCalled (uint (n + 1)) (classify' resp err);
        Waited d fired] ++ rest)
  /\
  (forall (options : list (RetryOption W Chan)) (w : W),
     always_fails f ->
     (forall e w', retryIf (apply_options options default_config) e w' =
                   default_retryIf e w') ->
     never_cancelled select2 (apply_options options default_config) ->
     (retries (apply_options options default_config) < 2 ^ 64)%N ->
     onRetry_attempts (trace (Retry' f options w)) =
       map N.of_nat
           (seq 1 (N.to_nat (retries (apply_options options default_config))))
     /\
     count_onRetry (trace (Retry' f options w)) =
       N.to_nat (retries (apply_options options default_config)) /\
     count_waits (trace (Retry' f options w)) =
       N.to_nat (retries (apply_options options default_config)) /\
     ((1 <= retries (apply_options options default_config))%N ->
      exists d before,
        trace (Retry' f options w) = before ++ [Waited d true])).
Proof.
  split.
  - intros opts k n lastErr w w1 w2 resp err Hc Hf Hs Hp.
    rewrite retry_loop_step, Hc, Hf, Hs. cbn zeta. rewrite Hp.
    destruct (backoffDuration rand_Int63n opts _) as [[d w4] t4].
    destruct (After (timer opts) d w4) as [c w5].
    destruct (select2 c (Done (context opts)) w5) as [fired w6].
    destruct fired.
    + destruct (loop opts f k _ _ w6) as [[res w7] tr].
      exists d, true, tr. reflexivity.
    + exists d, false, []. reflexivity.
  - intros options w Hf Hp Hc Hb. unfold Retry.
    set (opts := apply_options options default_config) in *.
    destruct (loop_always_fails Hf Hp Hc (N.to_nat (retries opts)) 0%N None w)
      as (_ & _ & _ & I4 & I5 & I6 & I7).
    split; [|split; [exact I4|split; [exact I5|]]].
    + rewrite I6 by lia. apply map_ext. intros i. lia.
    + intros Hr. destruct (N.to_nat (retries opts)) as [|k] eqn:E; [lia|].
      now destruct I7 as (_ & _ & I7).
Qed.

(** A response is never returned together with an error. *)
Lemma loop_never_both (opts : RetryConfig W Chan)
      (f : RetryableFuncWithResponse W) (k : nat) :
  forall (n : N) (lastErr : error) (w : W),
    fst (returned (loop opts f k n lastErr w)) <> None ->
    snd (returned (loop opts f k n lastErr w)) = None.
Proof.
  induction k as [|k IH]; intros n lastErr w.
  - cbn. intros H. now elim H.
  - rewrite retry_loop_step.
    destruct (Err (context opts) w) as [e|]; [cbn; intros H; now elim H|].
    destruct (f w) as [[resp err] w1].
    destruct (is_success resp err); [reflexivity|]. cbn zeta.
    destruct (retryIf opts (classify' resp err) w1) as [again w2].
    destruct again; [|cbn; intros H; now elim H].
    destruct (backoffDuration rand_Int63n opts _) as [[d w4] t4].
    destruct (After (timer opts) d w4) as [c w5].
    destruct (select2 c (Done (context opts)) w5) as [fired w6].
    destruct fired; [|cbn; intros H; now elim H].
    specialize (IH (uint (n + 1)) (classify' resp err) w6).
    destruct (loop opts f k _ _ w6) as [[res w7] tr]. exact IH.
Qed.

(** With an operation that never returns [(nil, nil)] and a context that
    keeps its contract, a nil response comes with a non-nil error, as soon
    as the loop runs once or starts from a non-nil [lastErr]. *)
Lemma loop_error_present (opts : RetryConfig W Chan)
      (f : RetryableFuncWithResponse W) :
  never_empty_handed f ->
  ctx_contract select2 opts ->
  forall (k : nat) (n : N) (lastErr : error) (w : W),
    (k = O -> lastErr <> None) ->
    fst (returned (loop opts f k n lastErr w)) = None ->
    snd (returned (loop opts f k n lastErr w)) <> None.
Proof.
  intros Hf Hctx.
  induction k as [|k IH]; intros n lastErr w Hk.
  - cbn. intros _. now apply Hk.
  - rewrite retry_loop_step.
    destruct (Err (context opts) w) as [e|]; [cbn; discriminate|].
    pose proof (Hf w) as Hne.
    destruct (f w) as [[resp err] w1]. cbn [fst] in Hne.
    destruct (is_success resp err) eqn:Hs.
    { unfold is_success in Hs. destruct err; [discriminate|].
      destruct resp; [|discriminate]. cbn. discriminate. }
    cbn zeta. pose proof (classify_not_nil Hne) as Hcl.
    destruct (retryIf opts (classify' resp err) w1) as [again w2].
    destruct again; [|cbn; intros _; exact Hcl].
    destruct (backoffDuration rand_Int63n opts _) as [[d w4] t4].
    destruct (After (timer opts) d w4) as [c w5].
    destruct (select2 c (Done (context opts)) w5) as [fired w6] eqn:Hsel.
    destruct fired.
    + specialize (IH (uint (n + 1)) (classify' resp err) w6 (fun _ => Hcl)).
      destruct (loop opts f k _ _ w6) as [[res w7] tr]. exact IH.
    + cbn. intros _. exact (Hctx _ _ _ Hsel).
Qed.

(** C1, as amended.  [Retry] never returns a response together with an
    error.  It returns a non-nil response with a nil error, or a nil
    response with a non-nil error, whenever at least one attempt is
    configured and the operation never returns [(nil, nil)] (the context
    keeping its contract that [Err] is non-nil once [Done] is closed). *)
Theorem Retry_response_xor_error (f : RetryableFuncWithResponse W)
        (options : list (RetryOption W Chan)) (w : W) :
  (fst (returned (Retry' f options w)) <> None ->
   snd (returned (Retry' f options w)) = None)
  /\
  ((1 <= retries (apply_options options default_config))%N ->
   never_empty_handed f ->
   ctx_contract select2 (apply_options options default_config) ->
   (exists r, returned (Retry' f options w) = (Some r, None)) \/
   (exists e, returned (Retry' f options w) = (None, Some e))).
Proof.
  unfold Retry.
  set (opts := apply_options options default_config).
  split; [apply loop_never_both|].
  intros Hr Hf Hctx.
  pose proof (loop_never_both opts f (N.to_nat (retries opts)) 0%N None w)
    as Hboth.
  assert (N.to_nat (retries opts) = O -> @None error_value <> None) as Hk
    by (intros E; lia).
  pose proof (@loop_error_present opts f Hf Hctx (N.to_nat (retries opts))
                                  0%N None w Hk) as Herr.
  destruct (returned (loop opts f (N.to_nat (retries opts)) 0%N None w))
    as [[r|] err]; cbn [fst snd] in *.
  - left. exists r. now rewrite Hboth.
  - right. destruct err as [e|]; [now exists e|]. now elim Herr.
Qed.

(** The operation is invoked at most once per iteration. *)
Lemma loop_calls_bounded (opts : RetryConfig W Chan)
      (f : RetryableFuncWithResponse W) (k : nat) :
  forall (n : N) (lastErr : error) (w : W),
    (count_calls (trace (loop opts f k n lastErr w)) <= k)%nat.
Proof.
  induction k as [|k IH]; intros n lastErr w.
  - cbn. lia.
  - rewrite retry_loop_step.
    destruct (Err (context opts) w) as [e|]; [cbn; lia|].
    destruct (f w) as [[resp err] w1].
    destruct (is_success resp err); [cbn; lia|]. cbn zeta.
    destruct (retryIf opts (classify' resp err) w1) as [again w2].
    destruct again; [|cbn; lia].
    destruct (backoffDuration rand_Int63n opts _) as [[d w4] t4].
    destruct (After (timer opts) d w4) as [c w5].
    destruct (select2 c (Done (context opts)) w5) as [fired w6].
    destruct fired; [|cbn; lia].
    specialize (IH (uint (n + 1)) (classify' resp err) w6).
    destruct (loop opts f k _ _ w6) as [[res w7] tr].
    unfold trace in *. cbn [snd] in *.
    rewrite count_calls_app. cbn. lia.
Qed.

Lemma apply_options_snoc (options : list (RetryOption W Chan))
      (opt : RetryOption W Chan) (cfg : RetryConfig W Chan) :
  apply_options (options ++ [opt]) cfg =
  match opt with
  | Some g => g (apply_options options cfg)
  | None => apply_options options cfg
  end.
Proof. unfold apply_options. now rewrite fold_left_app. Qed.

(** C8, as amended.  The default configuration has [retries = 3],
    [backoff = 1s], [maxJitter = 1s] and satisfies [retries >= 1],
    [backoff >= 0], [maxJitter >= 0].  An option stores its argument as it
    is, unvalidated, so a configuration built from the exported options
    satisfies the invariant when every [WithRetries] argument is at least
    1 and every [WithBackoff] and [WithMaxJitter] argument is at least 0.
    [retries] bounds the total number of invocations of the operation. *)
Theorem config_invariant_of_options (options : list (RetryOption W Chan)) :
  (retries default_config = 3%N /\ backoff default_config = Second /\
   maxJitter default_config = Second /\ config_invariant default_config)
  /\
  (Forall (@keeps_invariant W Chan) options ->
   config_invariant (apply_options options default_config))
  /\
  (forall r, retries (apply_options (options ++ [WithRetries W Chan r])
                                    default_config) = r)
  /\
  (forall b, backoff (apply_options (options ++ [WithBackoff W Chan b])
                                    default_config) = b)
  /\
  (forall j, maxJitter (apply_options (options ++ [WithMaxJitter W Chan j])
                                      default_config) = j)
  /\
  (forall f w,
     (count_calls (trace (Retry' f options w)) <=
      N.to_nat (retries (apply_options options default_config)))%nat).
Proof.
  assert (config_invariant default_config) as Hd.
  { unfold config_invariant, Second. cbn. lia. }
  split; [repeat split; apply Hd|].
  split.
  { intros Hall. unfold apply_options.
    generalize dependent default_config.
    induction options as [|opt options' IH]; intros cfg Hcfg; [exact Hcfg|].
    inversion Hall as [|? ? Hopt Hrest]; subst. cbn [fold_left].
    apply IH; [exact Hrest|].
    destruct Hcfg as (H1 & H2 & H3).
    inversion Hopt; subst; unfold config_invariant; cbn; auto. }
  split; [intros r; now rewrite apply_options_snoc|].
  split; [intros b; now rewrite apply_options_snoc|].
  split; [intros j; now rewrite apply_options_snoc|].
  intros f w. unfold Retry. apply loop_calls_bounded.
Qed.

End EngineFacts.

(* ================================================================= *)
(** ** Facts about the error decoder *)

Section DecodeFacts.

Variable json_Unmarshal : list byte -> option WatsonxErrorResponse.

(** C6. Decoding a non-nil response whose body is read in full and parses
    as the error envelope yields a [WatsonxError] with the status code of
    the response, the details of the envelope in their order, and its
    trace; and the response is left with a body that reads in full again.
    In particular so for status 400 and the envelope with the one detail
    [invalid_request] and the trace [trace-id-123]. *)
Theorem DecodeWatsonxError_envelope :
  (forall (r : Response) (env : WatsonxErrorResponse),
     read_err (Body r) = None ->
     pending (Body r) <> [] ->
     json_Unmarshal (pending (Body r)) = Some env ->
     exists r',
       DecodeWatsonxError json_Unmarshal (Some r) =
       (Some (WatsonxErr {| StatusCode := resp_StatusCode r;
                            Errors := envelope_Errors env;
                            Trace := envelope_Trace env |}),
        Some r') /\
       resp_StatusCode r' = resp_StatusCode r /\
       fst (io_ReadAll (Body r')) = (pending (Body r), None))
  /\
  (json_Unmarshal Sim.envelope_body = Some Sim.envelope_value ->
   exists e r',
     DecodeWatsonxError json_Unmarshal (Some Sim.bad_request_response) =
     (Some (WatsonxErr e), Some r') /\
     StatusCode e = 400 /\
     List.length (Errors e) = 1%nat /\
     map Code (Errors e) = ["invalid_request"] /\
     Trace e = "trace-id-123" /\
     fst (io_ReadAll (Body r')) = (Sim.envelope_body, None)).
Proof.
  assert (forall (r : Response) (env : WatsonxErrorResponse),
     read_err (Body r) = None ->
     pending (Body r) <> [] ->
     json_Unmarshal (pending (Body r)) = Some env ->
     DecodeWatsonxError json_Unmarshal (Some r) =
       (Some (WatsonxErr {| StatusCode := resp_StatusCode r;
                            Errors := envelope_Errors env;
                            Trace := envelope_Trace env |}),
        Some {| resp_StatusCode := resp_StatusCode r;
                Body := NopCloser_NewBuffer (pending (Body r)) |})) as Hgen.
  { intros r env Hread Hbody Hparse.
    unfold DecodeWatsonxError, io_ReadAll. rewrite Hread.
    destruct (pending (Body r)) as [|b body] eqn:E; [now elim Hbody|].
    cbn [List.length Nat.eqb]. rewrite Hparse. reflexivity. }
  split.
  - intros r env Hread Hbody Hparse. eexists. split; [now apply Hgen|].
    split; reflexivity.
  - intros Hparse.
    eexists. eexists. split.
    + apply (Hgen Sim.bad_request_response Sim.envelope_value);
        [reflexivity | discriminate | exact Hparse].
    + repeat split.
Qed.

(** C7. [DecodeWatsonxError] always returns a non-nil [*WatsonxError] and
    nothing else, so no secondary error comes out of it: for a nil
    response, the error with status 0 and no details; for a response with
    an empty body, or with a body that does not parse as the envelope, or
    with a body that cannot be read, the error that carries the status
    code of the response and nothing more. *)
Theorem DecodeWatsonxError_never_fails :
  (forall resp, exists e,
     fst (DecodeWatsonxError json_Unmarshal resp) = Some (WatsonxErr e))
  /\
  DecodeWatsonxError json_Unmarshal None =
    (Some (WatsonxErr {| StatusCode := 0; Errors := []; Trace := "" |}), None)
  /\
  (forall r, read_err (Body r) = None -> pending (Body r) = [] ->
     fst (DecodeWatsonxError json_Unmarshal (Some r)) =
     Some (WatsonxErr {| StatusCode := resp_StatusCode r;
                         Errors := []; Trace := "" |}))
  /\
  (forall r, read_err (Body r) = None -> pending (Body r) <> [] ->
     json_Unmarshal (pending (Body r)) = None ->
     fst (DecodeWatsonxError json_Unmarshal (Some r)) =
     Some (WatsonxErr {| StatusCode := resp_StatusCode r;
                         Errors := []; Trace := "" |}))
  /\
  (forall r, read_err (Body r) <> None ->
     fst (DecodeWatsonxError json_Unmarshal (Some r)) =
     Some (WatsonxErr {| StatusCode := resp_StatusCode r;
                         Errors := []; Trace := "" |})).
Proof.
  split.
  { intros [r|]; [|now eexists].
    unfold DecodeWatsonxError, io_ReadAll.
    destruct (read_err (Body r)); [now eexists|].
    destruct (List.length (pending (Body r)) =? 0)%nat; [now eexists|].
    destruct (json_Unmarshal _); now eexists. }
  split; [reflexivity|].
  split; [|split].
  - intros r Hread Hbody.
    unfold DecodeWatsonxError, io_ReadAll. now rewrite Hread, Hbody.
  - intros r Hread Hbody Hparse.
    unfold DecodeWatsonxError, io_ReadAll. rewrite Hread, Hparse.
    now destruct (List.length (pending (Body r)) =? 0)%nat.
  - intros r Hread.
    unfold DecodeWatsonxError, io_ReadAll.
    destruct (read_err (Body r)); [reflexivity | now elim Hread].
Qed.

End DecodeFacts.

(* ================================================================= *)
(** ** The theorems at work in the simulated world *)

Lemma Sim_never_cancelled (options : list (RetryOption Sim.World Sim.Chan)) :
  context (Sim.config options) = Background Sim.World Sim.NilChan ->
  never_cancelled Sim.select2 (Sim.config options).
Proof.
  intros H. unfold never_cancelled. rewrite H. split; [reflexivity|].
  intros c w. unfold Sim.select2. cbn.
  destruct c; destruct (Sim.deadline w); reflexivity.
Defined.

Lemma Sim_ctx_contract (options : list (RetryOption Sim.World Sim.Chan)) :
  context (Sim.config options) = Sim.ctx ->
  ctx_contract Sim.select2 (Sim.config options).
Proof.
  intros H. unfold ctx_contract. rewrite H.
  intros c w w'. unfold Sim.select2. cbn.
  destruct c as [t| |]; try discriminate.
  destruct (Sim.deadline w) as [limit|] eqn:E; try discriminate.
  destruct (limit <=? t); try discriminate.
  intros Hs. inversion Hs; subst. cbn. rewrite E.
  destruct (limit <=? Z.max (Sim.clock w) limit) eqn:L; [discriminate|].
  apply Z.leb_gt in L. lia.
Defined.

Lemma Sim_too_many_requests_always_fails : always_fails Sim.too_many_requests.
Proof.
  intros w. right. eexists. split; [reflexivity|]. discriminate.
Defined.

Lemma Sim_unreachable_never_empty_handed :
  never_empty_handed Sim.unreachable.
Proof. intros w. discriminate. Defined.

(** C1 as stated fails: with zero attempts configured, and also with an
    operation that returns [(nil, nil)] under the default configuration,
    [Retry] returns neither a response nor an error. *)
Lemma Retry_response_xor_error_counterexample :
  ~ ((exists r, returned (Sim.run Sim.too_many_requests
                            [WithRetries Sim.World Sim.Chan 0] Sim.start)
                = (Some r, None)) \/
     (exists e, returned (Sim.run Sim.too_many_requests
                            [WithRetries Sim.World Sim.Chan 0] Sim.start)
                = (None, Some e)))
  /\ returned (Sim.run Sim.too_many_requests
                [WithRetries Sim.World Sim.Chan 0] Sim.start) = (None, None)
  /\ returned (Sim.run Sim.nothing [] Sim.start) = (None, None).
Proof.
  split; [|split; reflexivity].
  intros [[r H] | [e H]]; vm_compute in H; discriminate.
Qed.

Lemma Retry_response_xor_error_witness :
  exists e,
    returned (Sim.run Sim.unreachable
                [Sim.with_ctx; WithMaxJitter Sim.World Sim.Chan 0]
                (Sim.start_with_deadline 1500000000)) = (None, Some e).
Proof.
  destruct (proj2 (@Retry_response_xor_error Sim.World Sim.Chan
              Sim.select2 Sim.NilChan Sim.time_After Sim.rand_Int63n
              EnvelopeJSON.Unmarshal Sim.unreachable
              [Sim.with_ctx; WithMaxJitter Sim.World Sim.Chan 0]
              (Sim.start_with_deadline 1500000000)))
    as [[r H] | H].
  - vm_compute. discriminate.
  - exact Sim_unreachable_never_empty_handed.
  - apply (Sim_ctx_contract
             [Sim.with_ctx; WithMaxJitter Sim.World Sim.Chan 0]).
    reflexivity.
  - vm_compute in H. discriminate.
  - exact H.
Defined.

(** C2 as stated fails: under the default configuration ([retries = 3])
    an operation that always fails has [onRetry] invoked 3 times and 3
    waits, not 2; the run ends with the wait after the final attempt. *)
Lemma Retry_onRetry_count_counterexample :
  always_fails Sim.too_many_requests /\
  retries (Sim.config [WithOnRetry Sim.Chan Sim.note_attempt]) = 3%N /\
  ~ (count_onRetry (trace (Sim.run Sim.too_many_requests
                             [WithOnRetry Sim.Chan Sim.note_attempt]
                             Sim.start)) = (3 - 1)%nat /\
     count_waits (trace (Sim.run Sim.too_many_requests
                           [WithOnRetry Sim.Chan Sim.note_attempt]
                           Sim.start)) = (3 - 1)%nat) /\
  Sim.notified (world_after (Sim.run Sim.too_many_requests
                               [WithOnRetry Sim.Chan Sim.note_attempt]
                               Sim.start)) = [1; 2; 3]%N /\
  exists d before,
    trace (Sim.run Sim.too_many_requests
             [WithOnRetry Sim.Chan Sim.note_attempt] Sim.start)
    = before ++ [Waited d true].
Proof.
  split; [exact Sim_too_many_requests_always_fails|].
  split; [reflexivity|]. split; [|split; [reflexivity|]].
  - intros [H _]. vm_compute in H. discriminate.
  - eexists. eexists (_ :: _ :: _ :: _ :: _ :: _ :: _ :: _ :: _ :: _ :: [_]).
    vm_compute. reflexivity.
Qed.

Lemma Retry_onRetry_and_wait_after_every_failure_witness :
  (exists d fired rest,
     trace (Sim.loop (Sim.config []) Sim.too_many_requests 1 2 None
                     Sim.start) =
     [Called (Some {| resp_StatusCode := 429;
                      Body := NopCloser_NewBuffer [] |}) None;
      AskedRetryIf (Some (WatsonxErr (status_only 429))) true;
      OnRetryCalled 3 (Some (WatsonxErr (status_only 429)));
      Waited d fired] ++ rest)
  /\
  onRetry_attempts (trace (Sim.run Sim.too_many_requests [] Sim.start))
  = [1; 2; 3]%N.
Proof.
  split.
  - apply (proj1 (@Retry_onRetry_and_wait_after_every_failure
             Sim.World Sim.Chan Sim.select2 Sim.NilChan Sim.time_After
             Sim.rand_Int63n EnvelopeJSON.Unmarshal Sim.too_many_requests)
           (Sim.config []) O 2%N None Sim.start
           (Sim.answered Sim.start) (Sim.answered Sim.start)
           (Some {| resp_StatusCode := 429; Body := NopCloser_NewBuffer [] |})
           None); reflexivity.
  - apply (proj2 (@Retry_onRetry_and_wait_after_every_failure
             Sim.World Sim.Chan Sim.select2 Sim.NilChan Sim.time_After
             Sim.rand_Int63n EnvelopeJSON.Unmarshal Sim.too_many_requests)
           [] Sim.start).
    + exact Sim_too_many_requests_always_fails.
    + intros e w'. reflexivity.
    + apply (Sim_never_cancelled []). reflexivity.
    + reflexivity.
Defined.

(** C3 as stated fails: the operation's first invocation would return a
    200 response, yet with zero attempts configured [Retry] never invokes
    it and returns no response. *)
Lemma Retry_success_short_circuits_counterexample :
  (exists r, fst (Sim.always_ok Sim.start) = (Some r, None) /\
             resp_StatusCode r = StatusOK) /\
  ~ (exists r, returned (Sim.run Sim.always_ok
                           [WithRetries Sim.World Sim.Chan 0] Sim.start)
               = (Some r, None)) /\
  count_calls (trace (Sim.run Sim.always_ok
                        [WithRetries Sim.World Sim.Chan 0] Sim.start))
  <> 1%nat.
Proof.
  split; [eexists; split; reflexivity|].
  split; [intros [r H]; vm_compute in H|]; discriminate.
Qed.

Lemma Retry_success_short_circuits_witness :
  Sim.run Sim.always_ok [WithRetries Sim.World Sim.Chan 5] Sim.start =
  ((Some {| resp_StatusCode := 200; Body := NopCloser_NewBuffer Sim.ok_body |},
    None),
   Sim.answered Sim.start,
   [Called (Some {| resp_StatusCode := 200;
                    Body := NopCloser_NewBuffer Sim.ok_body |}) None]).
Proof.
  apply (proj1 (@Retry_success_short_circuits Sim.World Sim.Chan
           Sim.select2 Sim.NilChan Sim.time_After Sim.rand_Int63n
           EnvelopeJSON.Unmarshal Sim.always_ok
           [WithRetries Sim.World Sim.Chan 5] Sim.start
           (Sim.answered Sim.start)
           (Some {| resp_StatusCode := 200;
                    Body := NopCloser_NewBuffer Sim.ok_body |})
           None
           ltac:(vm_compute; discriminate) eq_refl eq_refl));
    reflexivity.
Defined.

Lemma Retry_exhaustion_witness :
  count_calls (trace (Sim.run Sim.too_many_requests [] Sim.start)) = 3%nat /\
  returned (Sim.run Sim.too_many_requests [] Sim.start) =
  (None, Some (WatsonxErr (status_only 429))).
Proof.
  destruct (@Retry_exhaustion Sim.World Sim.Chan Sim.select2 Sim.NilChan
              Sim.time_After Sim.rand_Int63n EnvelopeJSON.Unmarshal
              Sim.too_many_requests [] Sim.start
              Sim_too_many_requests_always_fails
              (fun e w' => eq_refl)
              (Sim_never_cancelled [] eq_refl))
    as (Hcalls & Hresp & Herr & _).
  split; [exact Hcalls|].
  apply injective_projections; [exact Hresp|].
  unfold Sim.run. rewrite Herr. vm_compute. reflexivity.
Defined.

Lemma Retry_predicate_veto_witness :
  Sim.run Sim.bad_request
          [WithRetryIf Sim.Chan Sim.only_server_errors] Sim.start =
  ((None,
    Some (WatsonxErr {| StatusCode := 400;
                        Errors := envelope_Errors Sim.envelope_value;
                        Trace := "trace-id-123" |})),
   Sim.answered Sim.start,
   [Called (Some Sim.bad_request_response) None;
    AskedRetryIf
      (Some (WatsonxErr {| StatusCode := 400;
                           Errors := envelope_Errors Sim.envelope_value;
                           Trace := "trace-id-123" |})) false]).
Proof.
  apply (proj2 (@Retry_predicate_veto Sim.World Sim.Chan
           Sim.select2 Sim.NilChan Sim.time_After Sim.rand_Int63n
           EnvelopeJSON.Unmarshal Sim.bad_request
           Sim.start (Sim.answered Sim.start) (Sim.answered Sim.start)
           (Some Sim.bad_request_response) None eq_refl eq_refl)
         [WithRetryIf Sim.Chan Sim.only_server_errors]).
  - vm_compute. discriminate.
  - reflexivity.
  - vm_compute. reflexivity.
Defined.

Lemma DecodeWatsonxError_envelope_witness :
  exists e r',
    DecodeWatsonxError EnvelopeJSON.Unmarshal (Some Sim.bad_request_response)
    = (Some (WatsonxErr e), Some r') /\
    StatusCode e = 400 /\
    List.length (Errors e) = 1%nat /\
    map Code (Errors e) = ["invalid_request"] /\
    Trace e = "trace-id-123" /\
    fst (io_ReadAll (Body r')) = (Sim.envelope_body, None).
Proof.
  apply (proj2 (DecodeWatsonxError_envelope EnvelopeJSON.Unmarshal)).
  vm_compute. reflexivity.
Defined.

Lemma DecodeWatsonxError_never_fails_witness :
  fst (DecodeWatsonxError EnvelopeJSON.Unmarshal
         (Some Sim.internal_error_response))
  = Some (WatsonxErr {| StatusCode := 500; Errors := []; Trace := "" |}) /\
  fst (DecodeWatsonxError EnvelopeJSON.Unmarshal
         (Some Sim.bad_gateway_response))
  = Some (WatsonxErr {| StatusCode := 502; Errors := []; Trace := "" |}) /\
  fst (DecodeWatsonxError EnvelopeJSON.Unmarshal
         (Some Sim.cut_off_response))
  = Some (WatsonxErr {| StatusCode := 503; Errors := []; Trace := "" |}).
Proof.
  destruct (DecodeWatsonxError_never_fails EnvelopeJSON.Unmarshal)
    as (_ & _ & Hempty & Hparse & Hread).
  split; [|split].
  - apply (Hempty Sim.internal_error_response); reflexivity.
  - apply (Hparse Sim.bad_gateway_response);
      [reflexivity | discriminate | vm_compute; reflexivity].
  - apply (Hread Sim.cut_off_response). discriminate.
Defined.

(** C8 as stated fails: [WithRetries(0)] gives a configuration with no
    attempt at all, and [WithBackoff], [WithMaxJitter] accept negative
    durations. *)
Lemma config_invariant_counterexample :
  ~ config_invariant (Sim.config [WithRetries Sim.World Sim.Chan 0]) /\
  ~ config_invariant (Sim.config [WithBackoff Sim.World Sim.Chan (-1)]) /\
  ~ config_invariant (Sim.config [WithMaxJitter Sim.World Sim.Chan (-1)]).
Proof.
  unfold config_invariant.
  split; [|split]; cbn; intros (H1 & H2 & H3); lia.
Qed.

Lemma config_invariant_of_options_witness :
  config_invariant
    (Sim.config [WithRetries Sim.World Sim.Chan 5; None;
                 WithBackoff Sim.World Sim.Chan (2 * Second);
                 WithMaxJitter Sim.World Sim.Chan 0;
                 WithOnRetry Sim.Chan Sim.note_attempt]).
Proof.
  apply (proj1 (proj2 (@config_invariant_of_options Sim.World Sim.Chan
           Sim.select2 Sim.NilChan Sim.time_After Sim.rand_Int63n
           EnvelopeJSON.Unmarshal _))).
  repeat constructor; vm_compute; discriminate.
Defined.

Lemma Retry_cancellation_witness :
  Sim.loop (Sim.config [Sim.with_ctx]) Sim.always_ok 3 0 None
           (Sim.start_with_deadline 0)
  = ((None, Some (OtherErr "context deadline exceeded")),
     Sim.start_with_deadline 0, [])
  /\
  exists before,
    trace (Sim.run Sim.unreachable
             [Sim.with_ctx; WithMaxJitter Sim.World Sim.Chan 0]
             (Sim.start_with_deadline 1500000000))
    = before ++ [Waited 1000000000 false] /\
    returned (Sim.run Sim.unreachable
                [Sim.with_ctx; WithMaxJitter Sim.World Sim.Chan 0]
                (Sim.start_with_deadline 1500000000))
    = (None,
       Err Sim.ctx
           (world_after
              (Sim.run Sim.unreachable
                 [Sim.with_ctx; WithMaxJitter Sim.World Sim.Chan 0]
                 (Sim.start_with_deadline 1500000000)))).
Proof.
  split.
  - apply (proj1 (Retry_cancellation Sim.select2 Sim.rand_Int63n
             EnvelopeJSON.Unmarshal (Sim.config [Sim.with_ctx])
             Sim.always_ok 2 0%N None (Sim.start_with_deadline 0))).
    reflexivity.
  - apply (proj2 (Retry_cancellation Sim.select2 Sim.rand_Int63n
             EnvelopeJSON.Unmarshal
             (Sim.config [Sim.with_ctx; WithMaxJitter Sim.World Sim.Chan 0])
             Sim.unreachable 3 0%N None
             (Sim.start_with_deadline 1500000000)) 1000000000).
    vm_compute. auto 10.
Defined.

Lemma Retry_zero_attempts_witness :
  Sim.run Sim.always_ok [WithRetries Sim.World Sim.Chan 0] Sim.start
  = ((None, None), Sim.start, []).
Proof.
  apply (@Retry_zero_attempts Sim.World Sim.Chan Sim.select2 Sim.NilChan
           Sim.time_After Sim.rand_Int63n EnvelopeJSON.Unmarshal).
  reflexivity.
Defined.

(* ================================================================= *)
(** ** More facts about the runs of [Retry] *)

Lemma int64_small (z : Z) : - 2 ^ 63 <= z < 2 ^ 63 -> int64 z = z.
Proof. intros H. unfold int64. rewrite Z.mod_small; lia. Qed.

Lemma total_wait_app (t1 t2 : list Event) :
  total_wait (t1 ++ t2) = total_wait t1 + total_wait t2.
Proof.
  induction t1 as [|e t1 IH]; [reflexivity|].
  destruct e; cbn [app total_wait]; rewrite IH; lia.
Qed.

(** Waits that each last at least [b] add up to at least [b] times their
    number. *)
Lemma total_wait_at_least (b : Z) (tr : list Event) :
  (forall d fired, In (Waited d fired) tr -> b <= d) ->
  Z.of_nat (count_waits tr) * b <= total_wait tr.
Proof.
  induction tr as [|e tr IH]; intros H; [cbn; lia|].
  assert (Z.of_nat (count_waits tr) * b <= total_wait tr) as IH'.
  { apply IH. intros d fired Hin. apply (H d fired). now right. }
  destruct e; cbn [total_wait]; unfold count_waits in *;
    cbn [filter is_Waited List.length]; try exact IH'.
  specialize (H d timer_fired (or_introl eq_refl)). lia.
Qed.

Section RetryRuns.

Variable W : Type.
Variable Chan : Type.
Variable select2 : Chan -> Chan -> W -> bool * W.
Variable nil_chan : Chan.
Variable time_After : Duration -> W -> Chan * W.
Variable rand_Int63n : Z -> W -> Z * W.
Variable json_Unmarshal : list byte -> option WatsonxErrorResponse.

Local Abbreviation loop := (retry_loop select2 rand_Int63n json_Unmarshal).
Local Abbreviation Retry' :=
  (Retry select2 nil_chan time_After rand_Int63n json_Unmarshal).
Local Abbreviation classify' := (classify json_Unmarshal).
Local Abbreviation default_config :=
  (newDefaultRetryConfig nil_chan time_After).

(** [backoffDuration] records nothing and gives the backoff alone when
    [maxJitter] is not positive, the backoff plus what [rand.Int63n]
    returned otherwise. *)
Lemma backoffDuration_value (opts : RetryConfig W Chan) (w : W) :
  returned (backoffDuration rand_Int63n opts w) =
  (if 0 <? maxJitter opts
   then int64 (backoff opts + fst (rand_Int63n (maxJitter opts) w))
   else backoff opts).
Proof.
  unfold backoffDuration, returned, ret.
  destruct (0 <? maxJitter opts); [|reflexivity].
  now destruct (rand_Int63n (maxJitter opts) w).
Qed.

(** How calls, callbacks and waits interleave in any run of the loop. *)
Lemma loop_shape (opts : RetryConfig W Chan)
      (f : RetryableFuncWithResponse W) (k : nat) :
  forall (n : N) (lastErr : error) (w : W),
    count_onRetry (trace (loop opts f k n lastErr w)) =
    count_waits (trace (loop opts f k n lastErr w)) /\
    (count_onRetry (trace (loop opts f k n lastErr w)) <=
     count_calls (trace (loop opts f k n lastErr w)))%nat /\
    (count_calls (trace (loop opts f k n lastErr w)) <=
     S (count_onRetry (trace (loop opts f k n lastErr w))))%nat /\
    ((n + N.of_nat k < 2 ^ 64)%N ->
     onRetry_attempts (trace (loop opts f k n lastErr w)) =
     map (fun i => (n + N.of_nat i)%N)
         (seq 1 (count_onRetry (trace (loop opts f k n lastErr w))))).
Proof.
  induction k as [|k IH]; intros n lastErr w.
  - cbn. repeat split; auto.
  - rewrite retry_loop_step.
    destruct (Err (context opts) w) as [e|]; [cbn; repeat split; auto|].
    destruct (f w) as [[resp err] w1].
    destruct (is_success resp err); [cbn; repeat split; auto|]. cbn zeta.
    destruct (retryIf opts (classify' resp err) w1) as [again w2].
    destruct again; [|cbn; repeat split; auto].
    destruct (backoffDuration rand_Int63n opts _) as [[d w4] t4].
    destruct (After (timer opts) d w4) as [c w5].
    destruct (select2 c (Done (context opts)) w5) as [fired w6].
    destruct fired.
    + specialize (IH (uint (n + 1)) (classify' resp err) w6).
      destruct (loop opts f k _ _ w6) as [[res w7] tr].
      unfold trace in *. cbn [snd] in *.
      destruct IH as (I1 & I2 & I3 & I4).
      rewrite count_onRetry_app, count_waits_app, count_calls_app.
      change (count_onRetry [Called resp err;
                AskedRetryIf (classify' resp err) true;
                OnRetryCalled (uint (n + 1)) (classify' resp err);
                Waited d true]) with 1%nat.
      change (count_waits [Called resp err;
                AskedRetryIf (classify' resp err) true;
                OnRetryCalled (uint (n + 1)) (classify' resp err);
                Waited d true]) with 1%nat.
      change (count_calls [Called resp err;
                AskedRetryIf (classify' resp err) true;
                OnRetryCalled (uint (n + 1)) (classify' resp err);
                Waited d true]) with 1%nat.
      split; [lia|]. split; [lia|]. split; [lia|].
      intros Hb.
      assert (uint (n + 1) = (n + 1)%N) as Hu by (apply uint_small; lia).
      rewrite onRetry_attempts_app. cbn [onRetry_attempts app].
      rewrite Hu in *. rewrite I4 by lia.
      cbn [Nat.add seq map]. apply f_equal2; [lia|].
      rewrite <- (seq_shift (count_onRetry tr) 1), map_map.
      apply map_ext. intros i. lia.
    + unfold trace. cbn [snd].
      split; [reflexivity|]. split; [cbn; lia|]. split; [cbn; lia|].
      intros Hb. cbn. f_equal. rewrite uint_small by lia. lia.
Qed.

(** What a run that returns a response looks like. *)
Lemma loop_success (opts : RetryConfig W Chan)
      (f : RetryableFuncWithResponse W) (k : nat) :
  forall (n : N) (lastErr : error) (w : W) (r : Response),
    fst (returned (loop opts f k n lastErr w)) = Some r ->
    resp_StatusCode r = StatusOK /\
    snd (returned (loop opts f k n lastErr w)) = None /\
    last_call (trace (loop opts f k n lastErr w)) = Some (Some r, None) /\
    (exists before,
       trace (loop opts f k n lastErr w) =
       before ++ [Called (Some r) None]) /\
    count_calls (trace (loop opts f k n lastErr w)) =
    S (count_onRetry (trace (loop opts f k n lastErr w))).
Proof.
  induction k as [|k IH]; intros n lastErr w r.
  - cbn. discriminate.
  - rewrite retry_loop_step.
    destruct (Err (context opts) w) as [e|]; [cbn; discriminate|].
    destruct (f w) as [[resp err] w1].
    destruct (is_success resp err) eqn:Hs.
    { unfold returned, trace. cbn [fst snd]. intros ->.
      unfold is_success in Hs. destruct err; [discriminate|].
      apply Z.eqb_eq in Hs.
      split; [exact Hs|]. split; [reflexivity|]. split; [reflexivity|].
      split; [now exists []|reflexivity]. }
    cbn zeta.
    destruct (retryIf opts (classify' resp err) w1) as [again w2].
    destruct again; [|cbn; discriminate].
    destruct (backoffDuration rand_Int63n opts _) as [[d w4] t4].
    destruct (After (timer opts) d w4) as [c w5].
    destruct (select2 c (Done (context opts)) w5) as [fired w6].
    destruct fired; [|cbn; discriminate].
    specialize (IH (uint (n + 1)) (classify' resp err) w6 r).
    destruct (loop opts f k _ _ w6) as [[res w7] tr].
    unfold returned, trace in *. cbn [fst snd] in *.
    intros Hr. destruct (IH Hr) as (I1 & I2 & I3 & (before & ->) & I5).
    split; [exact I1|]. split; [exact I2|].
    split; [cbn [app last_call]; now rewrite I3|].
    split.
    * eexists (_ :: _ :: _ :: _ :: before). reflexivity.
    * rewrite count_calls_app, count_onRetry_app, I5. reflexivity.
Qed.

(** Every wait of a run lasts what [backoffDuration] computes. *)
Lemma loop_wait_bounds (opts : RetryConfig W Chan)
      (f : RetryableFuncWithResponse W) :
  Int63n_contract rand_Int63n ->
  - 2 ^ 63 <= backoff opts ->
  backoff opts + maxJitter opts <= 2 ^ 63 ->
  forall (k : nat) (n : N) (lastErr : error) (w : W) (d : Duration)
         (fired : bool),
    In (Waited d fired) (trace (loop opts f k n lastErr w)) ->
    (maxJitter opts <= 0 -> d = backoff opts) /\
    (0 < maxJitter opts ->
     backoff opts <= d < backoff opts + maxJitter opts).
Proof.
  intros Hrand Hlo Hhi.
  assert (forall w, let d := returned (backoffDuration rand_Int63n opts w) in
            (maxJitter opts <= 0 -> d = backoff opts) /\
            (0 < maxJitter opts ->
             backoff opts <= d < backoff opts + maxJitter opts)) as Hd.
  { intros w. cbn zeta. rewrite backoffDuration_value.
    destruct (0 <? maxJitter opts) eqn:Hj.
    - apply Z.ltb_lt in Hj. pose proof (Hrand _ w Hj) as Hr.
      rewrite int64_small by lia. split; lia.
    - apply Z.ltb_ge in Hj. split; [reflexivity|lia]. }
  induction k as [|k IH]; intros n lastErr w d fired.
  - cbn. contradiction.
  - rewrite retry_loop_step.
    destruct (Err (context opts) w) as [e|]; [intros []|].
    destruct (f w) as [[resp err] w1].
    destruct (is_success resp err).
    { cbn. intros [H|[]]. discriminate. }
    cbn zeta.
    destruct (retryIf opts (classify' resp err) w1) as [again w2].
    destruct again.
    2:{ cbn. intros [H|[H|[]]]; discriminate. }
    pose proof (Hd (onRetry opts (uint (n + 1)) (classify' resp err) w2))
      as Hd0.
    destruct (backoffDuration rand_Int63n opts _) as [[d0 w4] t4].
    unfold returned in Hd0. cbn [fst] in Hd0.
    destruct (After (timer opts) d0 w4) as [c w5].
    destruct (select2 c (Done (context opts)) w5) as [fired0 w6].
    destruct fired0.
    + specialize (IH (uint (n + 1)) (classify' resp err) w6 d fired).
      destruct (loop opts f k _ _ w6) as [[res w7] tr].
      unfold trace in *. cbn [snd] in *.
      intros Hin. cbn in Hin.
      destruct Hin as [H|[H|[H|[H|H]]]]; try discriminate.
      * inversion H; subst. exact Hd0.
      * now apply IH.
    + unfold trace. cbn [snd]. intros Hin. cbn in Hin.
      destruct Hin as [H|[H|[H|[H|[]]]]]; try discriminate.
      inversion H; subst. exact Hd0.
Qed.

(** Under a predicate that answers as the default one, the loop returns
    [(nil, nil)] exactly when the last invocation of the operation
    returned [(nil, nil)]. *)
Lemma loop_nil_nil (opts : RetryConfig W Chan)
      (f : RetryableFuncWithResponse W) :
  (forall e w, retryIf opts e w = default_retryIf e w) ->
  ctx_contract select2 opts ->
  forall (k : nat) (n : N) (lastErr : error) (w : W),
    (k = O -> lastErr <> None) ->
    (returned (loop opts f k n lastErr w) = (None, None) <->
     last_call (trace (loop opts f k n lastErr w)) = Some (None, None)).
Proof.
  intros Hp Hctx.
  induction k as [|k IH]; intros n lastErr w Hlast.
  - cbn. split; [intros H; inversion H; now elim Hlast | discriminate].
  - rewrite retry_loop_step.
    destruct (Err (context opts) w) as [e|]; [cbn; split; discriminate|].
    destruct (f w) as [[resp err] w1].
    destruct (is_success resp err) eqn:Hs.
    { unfold is_success in Hs. destruct err; [discriminate|].
      destruct resp; [|discriminate]. cbn. split; discriminate. }
    cbn zeta. rewrite Hp. unfold default_retryIf.
    destruct (classify' resp err) as [e|] eqn:Hc.
    + assert ((resp, err) <> (None, None)) as Hne.
      { intros H. inversion H; subst. cbn in Hc. discriminate. }
      destruct (backoffDuration rand_Int63n opts _) as [[d w4] t4].
      destruct (After (timer opts) d w4) as [c w5].
      destruct (select2 c (Done (context opts)) w5) as [fired w6] eqn:Hsel.
      destruct fired.
      * assert (k = O -> Some e <> None) as He by discriminate.
        specialize (IH (uint (n + 1)) (Some e) w6 He).
        destruct (loop opts f k _ _ w6) as [[res w7] tr].
        unfold returned, trace in *. cbn [fst snd] in *.
        cbn [app last_call]. rewrite IH.
        destruct (last_call tr) as [o|]; [reflexivity|].
        split; [discriminate|]. intros H. inversion H; subst. now elim Hne.
      * unfold returned, trace. cbn [fst snd last_call].
        pose proof (Hctx _ _ _ Hsel) as Herr.
        split.
        -- intros H. inversion H as [H']. now elim Herr.
        -- intros H. inversion H; subst. now elim Hne.
    + unfold returned, trace. cbn [fst snd last_call].
      split; [|reflexivity]. intros _.
      destruct resp as [r|], err as [e|]; try reflexivity;
        exfalso; revert Hc; apply classify_not_nil; discriminate.
Qed.

(** X1. In every run of [Retry], whatever the operation, the options and
    the world: each [onRetry] call is followed by one wait (their numbers
    are equal), and the operation is invoked as many times as [onRetry],
    or once more. *)
Theorem Retry_calls_callbacks_waits (f : RetryableFuncWithResponse W)
        (options : list (RetryOption W Chan)) (w : W) :
  count_onRetry (trace (Retry' f options w)) =
  count_waits (trace (Retry' f options w)) /\
  (count_onRetry (trace (Retry' f options w)) <=
   count_calls (trace (Retry' f options w)))%nat /\
  (count_calls (trace (Retry' f options w)) <=
   S (count_onRetry (trace (Retry' f options w))))%nat.
Proof.
  unfold Retry.
  destruct (loop_shape (apply_options options default_config) f
              (N.to_nat (retries (apply_options options default_config)))
              0%N None w) as (H1 & H2 & H3 & _).
  now repeat split.
Qed.

(** X2. In every run of [Retry] the attempt numbers given to [onRetry]
    are [1, 2, ..., j] in this order, [j] being the number of [onRetry]
    calls ([retries] being a [uint]). *)
Theorem Retry_attempt_numbers (f : RetryableFuncWithResponse W)
        (options : list (RetryOption W Chan)) (w : W) :
  (retries (apply_options options default_config) < 2 ^ 64)%N ->
  onRetry_attempts (trace (Retry' f options w)) =
  map N.of_nat (seq 1 (count_onRetry (trace (Retry' f options w)))).
Proof.
  intros Hb. unfold Retry.
  destruct (loop_shape (apply_options options default_config) f
              (N.to_nat (retries (apply_options options default_config)))
              0%N None w) as (_ & _ & _ & H4).
  rewrite H4 by lia. apply map_ext. intros i. lia.
Qed.

(** X3. When [Retry] returns a response, that response has status 200,
    the error is nil, the response is what the most recent invocation of
    the operation returned, that invocation is the last thing the run
    did, and [onRetry] was called once for each earlier invocation. *)
Theorem Retry_returned_response (f : RetryableFuncWithResponse W)
        (options : list (RetryOption W Chan)) (w : W) (r : Response) :
  fst (returned (Retry' f options w)) = Some r ->
  resp_StatusCode r = StatusOK /\
  snd (returned (Retry' f options w)) = None /\
  last_call (trace (Retry' f options w)) = Some (Some r, None) /\
  (exists before,
     trace (Retry' f options w) = before ++ [Called (Some r) None]) /\
  count_calls (trace (Retry' f options w)) =
  S (count_onRetry (trace (Retry' f options w))).
Proof.
  unfold Retry. apply loop_success.
Qed.

(** X4. When [rand.Int63n] keeps its contract and [backoff + maxJitter]
    does not overflow an [int64], every wait of a run lasts [backoff]
    exactly when [maxJitter <= 0], and at least [backoff] and less than
    [backoff + maxJitter] when [maxJitter > 0]. *)
Theorem Retry_wait_bounds (f : RetryableFuncWithResponse W)
        (options : list (RetryOption W Chan)) (w : W)
        (d : Duration) (fired : bool) :
  Int63n_contract rand_Int63n ->
  - 2 ^ 63 <= backoff (apply_options options default_config) ->
  backoff (apply_options options default_config) +
  maxJitter (apply_options options default_config) <= 2 ^ 63 ->
  In (Waited d fired) (trace (Retry' f options w)) ->
  (maxJitter (apply_options options default_config) <= 0 ->
   d = backoff (apply_options options default_config)) /\
  (0 < maxJitter (apply_options options default_config) ->
   backoff (apply_options options default_config) <= d <
   backoff (apply_options options default_config) +
   maxJitter (apply_options options default_config)).
Proof.
  intros Hrand Hlo Hhi. unfold Retry. now apply loop_wait_bounds.
Qed.

(** X5. For an operation that always fails, under the default predicate
    and with no cancellation, the waits of a run add up to at least
    [retries] times [backoff] (jitter only adds), [rand.Int63n] keeping
    its contract and [backoff + maxJitter] not overflowing. *)
Theorem Retry_total_wait (f : RetryableFuncWithResponse W)
        (options : list (RetryOption W Chan)) (w : W) :
  always_fails f ->
  (forall e w', retryIf (apply_options options default_config) e w' =
                default_retryIf e w') ->
  never_cancelled select2 (apply_options options default_config) ->
  Int63n_contract rand_Int63n ->
  - 2 ^ 63 <= backoff (apply_options options default_config) ->
  backoff (apply_options options default_config) +
  maxJitter (apply_options options default_config) <= 2 ^ 63 ->
  Z.of_N (retries (apply_options options default_config)) *
  backoff (apply_options options default_config) <=
  total_wait (trace (Retry' f options w)).
Proof.
  intros Hf Hp Hc Hrand Hlo Hhi. unfold Retry.
  set (opts := apply_options options default_config) in *.
  destruct (loop_always_fails rand_Int63n json_Unmarshal Hf Hp Hc
              (N.to_nat (retries opts)) 0%N None w)
    as (_ & _ & _ & _ & I5 & _).
  pose proof (@total_wait_at_least (backoff opts)
                (trace (loop opts f (N.to_nat (retries opts)) 0%N None w)))
    as Hsum.
  rewrite I5 in Hsum. rewrite N_nat_Z in Hsum. apply Hsum.
  intros d fired Hin.
  destruct (@loop_wait_bounds opts f Hrand Hlo Hhi _ _ _ _ _ _ Hin)
    as [Hzero Hpos].
  destruct (Z_lt_le_dec 0 (maxJitter opts)) as [Hj|Hj].
  - destruct (Hpos Hj). lia.
  - rewrite (Hzero Hj). lia.
Qed.

(** X6. With at least one attempt configured and a predicate that
    answers as the default one (the context keeping its contract),
    [Retry] returns [(nil, nil)] exactly when the last invocation of the
    operation returned [(nil, nil)]. *)
Theorem Retry_nil_nil_iff (f : RetryableFuncWithResponse W)
        (options : list (RetryOption W Chan)) (w : W) :
  (1 <= retries (apply_options options default_config))%N ->
  (forall e w', retryIf (apply_options options default_config) e w' =
                default_retryIf e w') ->
  ctx_contract select2 (apply_options options default_config) ->
  (returned (Retry' f options w) = (None, None) <->
   last_call (trace (Retry' f options w)) = Some (None, None)).
Proof.
  intros Hr Hp Hctx. unfold Retry. apply loop_nil_nil; auto.
  intros E. lia.
Qed.

(** X7. Options made by the exported constructors never assign the timer
    or the context: the configuration keeps [timerImpl] and
    [context.Background()], whose [Err] is always nil; and when a receive
    from the nil channel is never chosen by [select], such a
    configuration is never cancelled. *)
Theorem exported_options_keep_timer_and_context
        (options : list (RetryOption W Chan)) :
  Forall (@exported_option W Chan) options ->
  timer (apply_options options default_config) = timerImpl time_After /\
  context (apply_options options default_config) = Background W nil_chan /\
  ((forall c w, fst (select2 c nil_chan w) = true) ->
   never_cancelled select2 (apply_options options default_config)).
Proof.
  intros Hall.
  assert (forall cfg : RetryConfig W Chan,
            timer (apply_options options cfg) = timer cfg /\
            context (apply_options options cfg) = context cfg) as Hkeep.
  { unfold apply_options.
    induction Hall as [|opt options' Hopt _ IH]; intros cfg; [now split|].
    cbn [fold_left].
    destruct Hopt;
      match goal with
      | |- context [fold_left _ _ ?c] =>
        destruct (IH c) as [It Ic]; rewrite It, Ic; now split
      end. }
  destruct (Hkeep default_config) as [Ht Hc].
  split; [exact Ht|]. split; [exact Hc|].
  intros Hnil. unfold never_cancelled. rewrite Hc. now split.
Qed.

(** X16. Applying options made by the exported constructors, in any
    number and order and with nil options among them: each of [retries],
    [backoff], [maxJitter], [onRetry] and [retryIf] ends up with the
    argument of the last option for it, or keeps the value it had when
    there is none; the timer and the context are kept. *)
Theorem apply_options_last_wins (l : list (Setting W))
        (cfg : RetryConfig W Chan) :
  retries (apply_options (map (option_of Chan) l) cfg) =
    last_setting (@asks_retries W) l (retries cfg) /\
  backoff (apply_options (map (option_of Chan) l) cfg) =
    last_setting (@asks_backoff W) l (backoff cfg) /\
  maxJitter (apply_options (map (option_of Chan) l) cfg) =
    last_setting (@asks_maxJitter W) l (maxJitter cfg) /\
  onRetry (apply_options (map (option_of Chan) l) cfg) =
    last_setting (@asks_onRetry W) l (onRetry cfg) /\
  retryIf (apply_options (map (option_of Chan) l) cfg) =
    last_setting (@asks_retryIf W) l (retryIf cfg) /\
  timer (apply_options (map (option_of Chan) l) cfg) = timer cfg /\
  context (apply_options (map (option_of Chan) l) cfg) = context cfg.
Proof.
  unfold apply_options, last_setting. revert cfg.
  induction l as [|s l IH]; intros cfg; [now repeat split|].
  cbn [map fold_left].
  destruct s; cbn [option_of WithRetries WithBackoff WithMaxJitter
                   WithOnRetry WithRetryIf asks_retries asks_backoff
                   asks_maxJitter asks_onRetry asks_retryIf];
    match goal with
    | |- context [fold_left _ (map _ l) ?c] =>
      destruct (IH c) as (I1 & I2 & I3 & I4 & I5 & I6 & I7);
      rewrite I1, I2, I3, I4, I5, I6, I7
    end; now repeat split.
Qed.

End RetryRuns.

(* ================================================================= *)
(** ** More facts about the error decoder and the error string *)

Section DecodeAgain.

Variable json_Unmarshal : list byte -> option WatsonxErrorResponse.

(** X8. Decoding is repeatable: whatever the response (nil, readable or
    not), decoding the response as a first decoding left it returns the
    same error and leaves the response as it is. *)
Theorem DecodeWatsonxError_idempotent (resp : option Response) :
  DecodeWatsonxError json_Unmarshal
    (snd (DecodeWatsonxError json_Unmarshal resp)) =
  DecodeWatsonxError json_Unmarshal resp.
Proof.
  destruct resp as [[sc [body re]]|]; [|reflexivity].
  unfold DecodeWatsonxError, io_ReadAll; cbn.
  destruct re as [e|]; cbn; [reflexivity|].
  destruct (List.length body =? 0)%nat eqn:Hlen; cbn; [now rewrite Hlen|].
  destruct (json_Unmarshal body) as [env|] eqn:Hparse; cbn;
    now rewrite Hlen, Hparse.
Qed.

(** X9. How [Retry] classifies what an attempt returned.  A non-nil error
    of the operation is kept as it is, whatever the response.  A response
    that came with a nil error and whose body can be read becomes the
    [*WatsonxError] that [DecodeWatsonxError] gives for the response
    itself, with the status code of the response: reading and restoring
    the body first changes nothing.  If the body cannot be read, the
    error is the read error itself, where [DecodeWatsonxError] alone would
    give a status-only error.  [(nil, nil)] stays nil. *)
Theorem classify_cases :
  (forall resp e, classify json_Unmarshal resp (Some e) = Some e)
  /\
  (forall r, read_err (Body r) = None ->
     classify json_Unmarshal (Some r) None =
     fst (DecodeWatsonxError json_Unmarshal (Some r)) /\
     exists wx, classify json_Unmarshal (Some r) None = Some (WatsonxErr wx)
                /\ StatusCode wx = resp_StatusCode r)
  /\
  (forall r e, read_err (Body r) = Some e ->
     classify json_Unmarshal (Some r) None = Some e /\
     fst (DecodeWatsonxError json_Unmarshal (Some r)) =
     Some (WatsonxErr (status_only (resp_StatusCode r))))
  /\
  classify json_Unmarshal None None = None.
Proof.
  split; [reflexivity|]. split; [|split; [|reflexivity]].
  - intros r Hread.
    unfold classify, DecodeWatsonxError, io_ReadAll. rewrite Hread. cbn.
    split; [reflexivity|].
    destruct (List.length (pending (Body r)) =? 0)%nat;
      [now eexists|].
    destruct (json_Unmarshal (pending (Body r))); now eexists.
  - intros r e Hread.
    unfold classify, DecodeWatsonxError, io_ReadAll. rewrite Hread.
    now split.
Qed.

End DecodeAgain.

Lemma append_inj_l (p a b : string) :
  (p ++ a)%string = (p ++ b)%string -> a = b.
Proof.
  induction p as [|c p IH]; cbn; intros H; [exact H|].
  injection H as H. now apply IH.
Qed.

(** Two strings that agree up to the first occurrence of [c] in each. *)
Lemma append_split_at (c : ascii) (a b x y : string) :
  ~ In c (list_ascii_of_string a) ->
  ~ In c (list_ascii_of_string b) ->
  (a ++ String c x)%string = (b ++ String c y)%string ->
  a = b /\ x = y.
Proof.
  revert b. induction a as [|ch a IH]; intros [|ch' b] Ha Hb H; cbn in *.
  - injection H as H. now split.
  - injection H as Hc H. subst ch'. exfalso. apply Hb. now left.
  - injection H as Hc H. subst ch. exfalso. apply Ha. now left.
  - injection H as Hc H. subst ch'.
    destruct (IH b) as [-> ->]; auto.
Qed.

(** The decimal form of an integer has no closing parenthesis. *)
Lemma Sprintf_d_no_paren (n : Z) :
  ~ In ")"%char (list_ascii_of_string (Sprintf_d n)).
Proof.
  assert (forall d, ~ In ")"%char
            (list_ascii_of_string
               (DecimalString.NilEmpty.string_of_uint d))) as Hu.
  { induction d; cbn; [intros [] | ..];
      (intros [H|H]; [discriminate | auto]). }
  assert (forall d, ~ In ")"%char
            (list_ascii_of_string
               (DecimalString.NilZero.string_of_uint d))) as Hz.
  { intros d. destruct d; try apply Hu.
    cbn. intros [H|[]]. discriminate. }
  unfold Sprintf_d. destruct (Z.to_int n) as [d|d]; cbn.
  - apply Hz.
  - intros [H|H]; [discriminate|]. now apply (Hz d).
Qed.

Lemma Sprintf_d_inj (n m : Z) : Sprintf_d n = Sprintf_d m -> n = m.
Proof.
  unfold Sprintf_d. intros H.
  assert (forall z, Z.to_int z <> Decimal.Pos Decimal.Nil /\
                    Z.to_int z <> Decimal.Neg Decimal.Nil) as Hnn.
  { intros [|p|p]; cbn; split; try discriminate;
      intros E; injection E as E;
      now apply DecimalPos.Unsigned.to_uint_nonnil in E. }
  apply DecimalZ.to_int_inj.
  assert (Some (Z.to_int n) = Some (Z.to_int m)) as E.
  { rewrite <- (DecimalString.NilZero.isi (Z.to_int n)) by apply Hnn.
    rewrite <- (DecimalString.NilZero.isi (Z.to_int m)) by apply Hnn.
    now rewrite H. }
  now injection E.
Qed.

(** X10. The error string shows the status code and, of the details, the
    code and the message of the first one only: two errors with the same
    status code whose first details agree on code and message (or that
    both have no detail) have the same string, whatever their further
    details, [more_info] and trace. *)
Theorem Error_first_detail_only (e1 e2 : WatsonxError) :
  StatusCode e1 = StatusCode e2 ->
  map (fun d => (Code d, Message d)) (firstn 1 (Errors e1)) =
  map (fun d => (Code d, Message d)) (firstn 1 (Errors e2)) ->
  Error e1 = Error e2.
Proof.
  unfold Error. intros Hs Hd. rewrite Hs.
  destruct (Errors e1) as [|d1 l1], (Errors e2) as [|d2 l2];
    cbn in Hd; try discriminate; [reflexivity|].
  injection Hd as Hc Hm. now rewrite Hc, Hm.
Qed.

(** X11. The error string determines the status code, and whether the
    error carries details: errors with equal strings have equal status
    codes, and either both have details or neither has. *)
Theorem Error_determines_status (e1 e2 : WatsonxError) :
  Error e1 = Error e2 ->
  StatusCode e1 = StatusCode e2 /\ (Errors e1 = [] <-> Errors e2 = []).
Proof.
  unfold Error. intros H.
  assert (forall e : WatsonxError, exists t,
            match Errors e with
            | d :: _ =>
              ("watsonx error (" ++ Sprintf_d (StatusCode e) ++ "): "
                 ++ Code d ++ " - " ++ Message d)%string
            | [] =>
              ("watsonx error (" ++ Sprintf_d (StatusCode e) ++ ")")%string
            end =
            ("watsonx error (" ++
             (Sprintf_d (StatusCode e) ++ String ")" t))%string /\
            (t = EmptyString <-> Errors e = [])) as Hform.
  { intros e. destruct (Errors e) as [|d l].
    - exists EmptyString. split; [reflexivity|]. now split.
    - exists (": " ++ Code d ++ " - " ++ Message d)%string.
      split; [reflexivity|]. split; discriminate. }
  destruct (Hform e1) as (t1 & E1 & T1), (Hform e2) as (t2 & E2 & T2).
  rewrite E1, E2 in H. apply append_inj_l in H.
  apply append_split_at in H; try apply Sprintf_d_no_paren.
  destruct H as [Hd Ht]. split; [now apply Sprintf_d_inj|].
  rewrite <- T1, <- T2, Ht. reflexivity.
Qed.

(* ================================================================= *)
(** ** Facts about the retrying client *)

(** X12. [getReusableBody] on a request without a body (nil, or
    [http.NoBody]) leaves the request alone and supplies [http.NoBody].
    On a request whose body reads in full, it supplies, every time it is
    asked, a stream that yields the same bytes again, in full and without
    error.  On a request whose body fails to read, it returns that read
    error and no supplier. *)
Theorem getReusableBody_replays (req : Request) :
  (req_Body req = NilBody \/ req_Body req = NoBody ->
   exists getBody,
     getReusableBody req = (Supplier getBody, req) /\
     forall u, getBody u = NoBody)
  /\
  (forall s, req_Body req = StreamBody s -> read_err s = None ->
     exists getBody,
       fst (getReusableBody req) = Supplier getBody /\
       forall u, exists s',
         getBody u = StreamBody s' /\
         fst (io_ReadAll s') = (pending s, None))
  /\
  (forall s e, req_Body req = StreamBody s -> read_err s = Some e ->
     fst (getReusableBody req) = ReadFailed e).
Proof.
  unfold getReusableBody. split; [|split].
  - intros [H|H]; rewrite H; now eexists.
  - intros s Hb Hr. rewrite Hb. unfold io_ReadAll. rewrite Hr.
    eexists. split; [reflexivity|]. intros u. now eexists.
  - intros s e Hb Hr. rewrite Hb. unfold io_ReadAll. now rewrite Hr.
Qed.

Section ClientFacts.

Variable W : Type.
Variable Chan : Type.
Variable select2 : Chan -> Chan -> W -> bool * W.
Variable nil_chan : Chan.
Variable time_After : Duration -> W -> Chan * W.
Variable rand_Int63n : Z -> W -> Z * W.
Variable json_Unmarshal : list byte -> option WatsonxErrorResponse.

Local Abbreviation client_loop :=
  (retry_loop (client_select2 select2) (client_rand_Int63n rand_Int63n)
              json_Unmarshal
              (newDefaultRetryConfig nil_chan (client_time_After time_After))).
Local Abbreviation plain_loop :=
  (retry_loop select2 rand_Int63n json_Unmarshal
              (newDefaultRetryConfig nil_chan time_After)).
Local Abbreviation DoWithRetry' :=
  (DoWithRetry select2 nil_chan time_After rand_Int63n json_Unmarshal).

Local Ltac now_same :=
  unfold returned, trace, world_after; cbn [fst snd]; now eexists.

Lemma client_select2_pair (c1 c2 : Chan) (w : W) (r : Request) :
  client_select2 select2 c1 c2 (w, r) =
  (fst (select2 c1 c2 w), (snd (select2 c1 c2 w), r)).
Proof.
  unfold client_select2. cbn [fst snd]. now destruct (select2 c1 c2 w).
Qed.

Lemma client_time_After_pair (d : Duration) (w : W) (r : Request) :
  client_time_After time_After d (w, r) =
  (fst (time_After d w), (snd (time_After d w), r)).
Proof.
  unfold client_time_After. cbn [fst snd]. now destruct (time_After d w).
Qed.

Lemma client_rand_Int63n_pair (n : Z) (w : W) (r : Request) :
  client_rand_Int63n rand_Int63n n (w, r) =
  (fst (rand_Int63n n w), (snd (rand_Int63n n w), r)).
Proof.
  unfold client_rand_Int63n. cbn [fst snd]. now destruct (rand_Int63n n w).
Qed.

(** The loop of [DoWithRetry], whose closure assigns [req.Body] before
    every attempt, goes as the loop does when each attempt is handed the
    request with its body as it first was, however the transport left the
    body of the attempt before. *)
Lemma client_loop_simulates (c : HttpClient W) (req : Request)
      (getBody : unit -> RequestBody) (k : nat) :
  forall (n : N) (lastErr : error) (w : W) (r : Request),
    Method r = Method req -> URL r = URL req ->
    exists r',
      client_loop (send c getBody) k n lastErr (w, r) =
      (returned (plain_loop (send_pristine c req getBody) k n lastErr w),
       (world_after (plain_loop (send_pristine c req getBody) k n lastErr w),
        r'),
       trace (plain_loop (send_pristine c req getBody) k n lastErr w)).
Proof.
  induction k as [|k IH]; intros n lastErr w r Hm Hu.
  - now exists r.
  - rewrite !retry_loop_step.
    cbn [newDefaultRetryConfig context timer retryIf onRetry Err Done After
         Background timerImpl].
    assert (send c getBody (w, r) =
            (fst (fst (httpClient c (set_Body req (getBody tt)) w)),
             (snd (fst (httpClient c (set_Body req (getBody tt)) w)),
              set_Body (set_Body req (getBody tt))
                       (snd (httpClient c (set_Body req (getBody tt)) w)))))
      as ->.
    { unfold send. cbn [fst snd].
      assert (set_Body r (getBody tt) = set_Body req (getBody tt)) as ->
        by (unfold set_Body; now rewrite Hm, Hu).
      now destruct (httpClient c (set_Body req (getBody tt)) w)
        as [[[resp err] w1] body']. }
    assert (send_pristine c req getBody w =
            fst (httpClient c (set_Body req (getBody tt)) w)) as ->.
    { unfold send_pristine.
      now destruct (httpClient c (set_Body req (getBody tt)) w)
        as [[[resp err] w1] body']. }
    destruct (httpClient c (set_Body req (getBody tt)) w)
      as [[[resp err] w1] body'].
    cbn [fst snd].
    destruct (is_success resp err); [now_same|]. cbn zeta.
    unfold default_retryIf, default_onRetry.
    destruct (classify json_Unmarshal resp err) as [e|]; [|now_same].
    unfold backoffDuration.
    cbn [newDefaultRetryConfig maxJitter backoff].
    destruct (0 <? 1 * Second); unfold ret.
    + rewrite client_rand_Int63n_pair.
      destruct (rand_Int63n (1 * Second) w1) as [j w2]. cbn [fst snd].
      rewrite client_time_After_pair.
      destruct (time_After (int64 (1 * Second + j)) w2) as [ch w3].
      cbn [fst snd]. rewrite client_select2_pair.
      destruct (select2 ch nil_chan w3) as [fired w4]. cbn [fst snd].
      destruct fired; [|now_same].
      destruct (IH (uint (n + 1)) (Some e) w4
                   (set_Body (set_Body req (getBody tt)) body')
                   eq_refl eq_refl) as [r' ->].
      destruct (plain_loop (send_pristine c req getBody) k _ _ _)
        as [[res w7] tr].
      now_same.
    + rewrite client_time_After_pair.
      destruct (time_After (1 * Second) w1) as [ch w3].
      cbn [fst snd]. rewrite client_select2_pair.
      destruct (select2 ch nil_chan w3) as [fired w4]. cbn [fst snd].
      destruct fired; [|now_same].
      destruct (IH (uint (n + 1)) (Some e) w4
                   (set_Body (set_Body req (getBody tt)) body')
                   eq_refl eq_refl) as [r' ->].
      destruct (plain_loop (send_pristine c req getBody) k _ _ _)
        as [[res w7] tr].
      now_same.
Qed.

(** [getReusableBody] assigns nothing but the body. *)
Lemma getReusableBody_keeps_fields (req : Request) :
  Method (snd (getReusableBody req)) = Method req /\
  URL (snd (getReusableBody req)) = URL req.
Proof.
  unfold getReusableBody.
  destruct (req_Body req) as [| |s]; [now split..|].
  unfold io_ReadAll. destruct (read_err s); now split.
Qed.

(** X13. When the body of the request cannot be read, [DoWithRetry]
    returns a nil response and the read error at once: the transport is
    never called, nothing is waited for, and the world outside is left as
    it was. *)
Theorem DoWithRetry_unreadable_body (c : HttpClient W) (req : Request)
        (w : W) (s : ReadCloser) (e : error_value) :
  req_Body req = StreamBody s ->
  read_err s = Some e ->
  returned (DoWithRetry' c req w) = (None, Some e) /\
  trace (DoWithRetry' c req w) = [] /\
  fst (world_after (DoWithRetry' c req w)) = w.
Proof.
  intros Hb Hr. unfold DoWithRetry, getReusableBody, io_ReadAll.
  rewrite Hb, Hr. now repeat split.
Qed.

(** X14. Body replay.  When [getReusableBody] gives a supplier,
    [DoWithRetry] returns what [Retry] returns, makes the calls [Retry]
    makes, and leaves the world outside as [Retry] leaves it, for the
    operation that hands the transport, at every attempt, the request
    with the body the supplier yields: what an attempt's transport call
    left of the body has no effect on the attempts after it. *)
Theorem DoWithRetry_replays_body (c : HttpClient W) (req : Request) (w : W)
        (getBody : unit -> RequestBody) :
  fst (getReusableBody req) = Supplier getBody ->
  returned (DoWithRetry' c req w) =
  returned (Retry select2 nil_chan time_After rand_Int63n json_Unmarshal
                  (send_pristine c req getBody) [] w) /\
  trace (DoWithRetry' c req w) =
  trace (Retry select2 nil_chan time_After rand_Int63n json_Unmarshal
               (send_pristine c req getBody) [] w) /\
  fst (world_after (DoWithRetry' c req w)) =
  world_after (Retry select2 nil_chan time_After rand_Int63n json_Unmarshal
                     (send_pristine c req getBody) [] w).
Proof.
  intros Hg. unfold DoWithRetry.
  destruct (getReusableBody_keeps_fields req) as [Hm Hu].
  destruct (getReusableBody req) as [[g|e] req']; cbn [fst snd] in *;
    [|discriminate].
  injection Hg as ->. unfold Retry. cbn [apply_options fold_left].
  destruct (client_loop_simulates c req getBody
              (N.to_nat (retries (newDefaultRetryConfig nil_chan time_After)))
              0%N None w req' Hm Hu) as [r' Hsim].
  cbn [newDefaultRetryConfig retries] in *. rewrite Hsim.
  unfold returned, trace, world_after. cbn [fst snd]. now repeat split.
Qed.

(** X15. [DoWithRetry] runs under the default configuration: the
    transport is called at most 3 times; and exactly 3 times, with 3
    waits, ending in a nil response and a non-nil error, when every
    transport call fails (a receive from the nil channel never being
    chosen by [select]). *)
Theorem DoWithRetry_three_attempts (c : HttpClient W) (req : Request)
        (w : W) :
  (count_calls (trace (DoWithRetry' c req w)) <= 3)%nat /\
  (forall getBody,
     fst (getReusableBody req) = Supplier getBody ->
     (forall rq w', failure (fst (fst (fst (httpClient c rq w'))))
                            (snd (fst (fst (httpClient c rq w'))))) ->
     (forall ch w', fst (select2 ch nil_chan w') = true) ->
     count_calls (trace (DoWithRetry' c req w)) = 3%nat /\
     count_waits (trace (DoWithRetry' c req w)) = 3%nat /\
     fst (returned (DoWithRetry' c req w)) = None /\
     snd (returned (DoWithRetry' c req w)) <> None).
Proof.
  split.
  - unfold DoWithRetry.
    destruct (getReusableBody req) as [[g|e] req']; [|cbn; lia].
    unfold Retry. cbn [apply_options fold_left].
    apply (loop_calls_bounded (client_select2 select2)
             (client_rand_Int63n rand_Int63n) json_Unmarshal
             (newDefaultRetryConfig nil_chan (client_time_After time_After))
             (send c g) 3 0%N None (w, req')).
  - intros getBody Hg Hfail Hsel. unfold DoWithRetry.
    destruct (getReusableBody req) as [[g|e] req']; cbn [fst] in Hg;
      [|discriminate].
    injection Hg as ->. unfold Retry. cbn [apply_options fold_left].
    assert (always_fails (send c getBody)) as Hf.
    { intros [w' r]. unfold send. cbn [fst snd].
      specialize (Hfail (set_Body r (getBody tt)) w').
      now destruct (httpClient c (set_Body r (getBody tt)) w')
        as [[[resp err] w1] body']. }
    assert (never_cancelled (client_select2 select2)
              (newDefaultRetryConfig nil_chan
                 (client_time_After time_After))) as Hc.
    { split; [reflexivity|]. intros ch [w' r].
      cbn [newDefaultRetryConfig context Background Done].
      rewrite client_select2_pair. cbn [fst]. apply Hsel. }
    destruct (@loop_always_fails _ _ _ (client_rand_Int63n rand_Int63n)
                json_Unmarshal
                (newDefaultRetryConfig nil_chan
                   (client_time_After time_After))
                (send c getBody) Hf (fun e w' => eq_refl) Hc
                3 0%N None (w, req'))
      as (I1 & _ & I3 & _ & I5 & _ & _ & I8 & _).
    cbn [newDefaultRetryConfig retries].
    change (N.to_nat 3) with 3%nat.
    now repeat split.
Qed.

End ClientFacts.

(* ================================================================= *)
(** ** The further theorems at work in the simulated world *)

Lemma Sim_Int63n_contract : Int63n_contract Sim.rand_Int63n.
Proof.
  intros n w Hn. unfold Sim.rand_Int63n. cbn [fst].
  apply Z.mod_pos_bound. exact Hn.
Defined.

Lemma Sim_select2_nil (c : Sim.Chan) (w : Sim.World) :
  fst (Sim.select2 c Sim.NilChan w) = true.
Proof.
  unfold Sim.select2. destruct c; destruct (Sim.deadline w); reflexivity.
Defined.

Lemma Sim_background_contract
      (options : list (RetryOption Sim.World Sim.Chan)) :
  context (Sim.config options) = Background Sim.World Sim.NilChan ->
  ctx_contract Sim.select2 (Sim.config options).
Proof.
  intros H. unfold ctx_contract. rewrite H. intros c w w' Hsel.
  pose proof (Sim_select2_nil c w) as Hnil. cbn [Background Done] in Hsel.
  rewrite Hsel in Hnil. discriminate.
Defined.

Lemma Retry_attempt_numbers_witness :
  onRetry_attempts
    (trace (Sim.run Sim.flaky [WithOnRetry Sim.Chan Sim.note_attempt]
                    Sim.start)) =
  map N.of_nat
      (seq 1 (count_onRetry
                (trace (Sim.run Sim.flaky
                          [WithOnRetry Sim.Chan Sim.note_attempt]
                          Sim.start)))).
Proof.
  apply (@Retry_attempt_numbers Sim.World Sim.Chan Sim.select2 Sim.NilChan
           Sim.time_After Sim.rand_Int63n EnvelopeJSON.Unmarshal).
  reflexivity.
Defined.

Lemma Retry_returned_response_witness :
  last_call (trace (Sim.run Sim.flaky [] Sim.start)) =
  Some (Some {| resp_StatusCode := 200;
                Body := NopCloser_NewBuffer Sim.ok_body |}, None) /\
  count_calls (trace (Sim.run Sim.flaky [] Sim.start)) =
  S (count_onRetry (trace (Sim.run Sim.flaky [] Sim.start))).
Proof.
  destruct (@Retry_returned_response Sim.World Sim.Chan Sim.select2
              Sim.NilChan Sim.time_After Sim.rand_Int63n
              EnvelopeJSON.Unmarshal Sim.flaky [] Sim.start
              {| resp_StatusCode := 200;
                 Body := NopCloser_NewBuffer Sim.ok_body |} eq_refl)
    as (_ & _ & Hlast & _ & Hcount).
  split; [exact Hlast | exact Hcount].
Defined.

Lemma Retry_wait_bounds_witness :
  backoff (Sim.config []) <= 1000000001 <
  backoff (Sim.config []) + maxJitter (Sim.config []).
Proof.
  apply (proj2 (@Retry_wait_bounds Sim.World Sim.Chan Sim.select2
                  Sim.NilChan Sim.time_After Sim.rand_Int63n
                  EnvelopeJSON.Unmarshal Sim.too_many_requests []
                  Sim.start 1000000001 true Sim_Int63n_contract
                  ltac:(vm_compute; discriminate)
                  ltac:(vm_compute; discriminate)
                  ltac:(vm_compute; auto 10))).
  reflexivity.
Defined.

Lemma Retry_total_wait_witness :
  3 * Second <= total_wait (trace (Sim.run Sim.too_many_requests []
                                           Sim.start)).
Proof.
  apply (@Retry_total_wait Sim.World Sim.Chan Sim.select2 Sim.NilChan
           Sim.time_After Sim.rand_Int63n EnvelopeJSON.Unmarshal
           Sim.too_many_requests [] Sim.start
           Sim_too_many_requests_always_fails
           (fun e w' => eq_refl)
           (Sim_never_cancelled [] eq_refl)
           Sim_Int63n_contract
           ltac:(vm_compute; discriminate)
           ltac:(vm_compute; discriminate)).
Defined.

Lemma Retry_nil_nil_iff_witness :
  returned (Sim.run Sim.nothing [] Sim.start) = (None, None) <->
  last_call (trace (Sim.run Sim.nothing [] Sim.start)) = Some (None, None).
Proof.
  apply (@Retry_nil_nil_iff Sim.World Sim.Chan Sim.select2 Sim.NilChan
           Sim.time_After Sim.rand_Int63n EnvelopeJSON.Unmarshal
           Sim.nothing [] Sim.start).
  - vm_compute. discriminate.
  - intros e w'. reflexivity.
  - apply (Sim_background_contract []). reflexivity.
Defined.

Lemma exported_options_keep_timer_and_context_witness :
  context (Sim.config [WithRetries Sim.World Sim.Chan 5; None;
                       WithOnRetry Sim.Chan Sim.note_attempt;
                       WithRetryIf Sim.Chan Sim.only_server_errors])
  = Background Sim.World Sim.NilChan.
Proof.
  apply (@exported_options_keep_timer_and_context Sim.World Sim.Chan
           Sim.select2 Sim.NilChan Sim.time_After).
  repeat constructor.
Defined.

Lemma classify_cases_witness :
  classify EnvelopeJSON.Unmarshal (Some Sim.bad_request_response) None =
  fst (DecodeWatsonxError EnvelopeJSON.Unmarshal
         (Some Sim.bad_request_response)) /\
  classify EnvelopeJSON.Unmarshal (Some Sim.cut_off_response) None =
  Some (OtherErr "unexpected EOF").
Proof.
  destruct (classify_cases EnvelopeJSON.Unmarshal)
    as (_ & Hread & Hbroken & _).
  split.
  - apply (Hread Sim.bad_request_response). reflexivity.
  - apply (Hbroken Sim.cut_off_response). reflexivity.
Defined.

Lemma Error_first_detail_only_witness :
  Error {| StatusCode := 400;
           Errors := [{| Code := "invalid_request"; Message := "Bad input";
                         MoreInfo := "see docs" |};
                      {| Code := "quota"; Message := "Too many";
                         MoreInfo := "" |}];
           Trace := "trace-1" |} =
  Error {| StatusCode := 400;
           Errors := [{| Code := "invalid_request"; Message := "Bad input";
                         MoreInfo := "" |}];
           Trace := "trace-2" |}.
Proof.
  apply Error_first_detail_only; reflexivity.
Defined.

Lemma Error_determines_status_witness :
  StatusCode (status_only 429) = StatusCode {| StatusCode := 429;
                                               Errors := [];
                                               Trace := "trace-9" |}.
Proof.
  apply (Error_determines_status (status_only 429)
           {| StatusCode := 429; Errors := []; Trace := "trace-9" |}).
  reflexivity.
Defined.

Lemma getReusableBody_replays_witness :
  exists getBody,
    fst (getReusableBody
           (SimClient.post (NopCloser_NewReader SimClient.prompt))) =
    Supplier getBody /\
    forall u, exists s',
      getBody u = StreamBody s' /\
      fst (io_ReadAll s') = (SimClient.prompt, None).
Proof.
  apply (proj1 (proj2 (getReusableBody_replays
           (SimClient.post (NopCloser_NewReader SimClient.prompt))))
           (NopCloser_NewReader SimClient.prompt));
    reflexivity.
Defined.

Lemma DoWithRetry_unreadable_body_witness :
  returned (SimClient.run SimClient.echo
              (SimClient.post SimClient.cut_off) Sim.start) =
  (None, Some (OtherErr "unexpected EOF")) /\
  trace (SimClient.run SimClient.echo
           (SimClient.post SimClient.cut_off) Sim.start) = [] /\
  fst (world_after (SimClient.run SimClient.echo
                      (SimClient.post SimClient.cut_off) Sim.start)) =
  Sim.start.
Proof.
  apply (@DoWithRetry_unreadable_body Sim.World Sim.Chan Sim.select2
           Sim.NilChan Sim.time_After Sim.rand_Int63n
           EnvelopeJSON.Unmarshal {| httpClient := SimClient.echo |}
           (SimClient.post SimClient.cut_off) Sim.start
           SimClient.cut_off (OtherErr "unexpected EOF"));
    reflexivity.
Defined.

Lemma DoWithRetry_replays_body_witness :
  trace (SimClient.run SimClient.echo
           (SimClient.post (NopCloser_NewReader SimClient.prompt))
           Sim.start) =
  trace (Sim.run
           (send_pristine {| httpClient := SimClient.echo |}
              (SimClient.post (NopCloser_NewReader SimClient.prompt))
              (fun _ => StreamBody (NopCloser_NewReader SimClient.prompt)))
           [] Sim.start).
Proof.
  apply (proj1 (proj2 (@DoWithRetry_replays_body Sim.World Sim.Chan
           Sim.select2 Sim.NilChan Sim.time_After Sim.rand_Int63n
           EnvelopeJSON.Unmarshal {| httpClient := SimClient.echo |}
           (SimClient.post (NopCloser_NewReader SimClient.prompt))
           Sim.start
           (fun _ => StreamBody (NopCloser_NewReader SimClient.prompt))
           eq_refl))).
Defined.

Lemma DoWithRetry_three_attempts_witness :
  count_calls (trace (SimClient.run SimClient.unavailable
                        (SimClient.post
                           (NopCloser_NewReader SimClient.prompt))
                        Sim.start)) = 3%nat.
Proof.
  apply (proj2 (@DoWithRetry_three_attempts Sim.World Sim.Chan
           Sim.select2 Sim.NilChan Sim.time_After Sim.rand_Int63n
           EnvelopeJSON.Unmarshal {| httpClient := SimClient.unavailable |}
           (SimClient.post (NopCloser_NewReader SimClient.prompt))
           Sim.start)
           (fun _ => StreamBody (NopCloser_NewReader SimClient.prompt))
           eq_refl).
  - intros rq w'. right. eexists. split; [reflexivity|]. discriminate.
  - exact Sim_select2_nil.
Defined.
